(** * Research collaboration recommender

    A shallow embedding of [recommender.py] (class
    [ResearchCollaborationRecommender]) and proofs about its three steps:
    [build_coauthor_matrix], [build_content_profiles] and
    [recommend_collaborators].

    The object's five attributes are a record; a method is a function
    from that record to a result in the error monad [Exc], with one
    constructor of [PyError] per Python exception that can be raised.

    - Every cell of the two tables is a string, and strings are Rocq
      strings read as ASCII text.  A field that [pd.read_csv] reads as
      NaN (an empty field, for one) or as a number has no counterpart:
      on such a cell the code raises where the embedding goes on, so a
      theorem that states a success assumes [text_tables], which keeps
      to fields read as text.  Likewise for a researcher name that is
      not in the fragment of regular expressions covered by
      [str_contains]: there the theorem assumes [regex_supported].
    - The co-authorship counters are float64 cells that only ever hold
      whole numbers; they are kept in [Z].
    - Scores are float64 values, which are rationals, and are kept in
      [Q].  A float operation is the exact operation followed by a
      rounding [rnd : Q -> Q], a parameter of the embedding; what the
      proofs need of it is gathered in the class [Rounding]; [round64],
      rounding to 53 significant bits, nearest, ties to even, is an
      instance.  Overflow, underflow, infinities and NaN are not
      modelled.
    - pandas' string methods and numpy's array operations are written out.
      scikit-learn's TF-IDF weighting and cosine similarity, which compute
      with logarithms and square roots, are parameters too; instances
      that are exact on rows of rational norm serve the examples.

    The script [generate_data.py], which writes the two tables, is
    embedded after the recommender, over an abstract random state. *)

From Stdlib Require Import ZArith QArith Qminmax Qround Qpower Lia Ascii.
From Stdlib Require String.
From stdpp Require Import base option list sorting gmap strings pretty.

Local Open Scope Z_scope.
Local Open Scope nat_scope.

(** ** Python exceptions and the error monad *)

Inductive PyError : Type :=
  | ValueError (msg : string)
  | KeyError (key : string)
  | IndexError
  | TypeError
  | AttributeError.

Inductive Exc (A : Type) : Type :=
  | Raise (e : PyError)
  | Ok (a : A).
Arguments Raise {A} e.
Arguments Ok {A} a.

#[global] Instance Exc_ret : MRet Exc := fun A a => Ok a.
#[global] Instance Exc_bind : MBind Exc := fun A B k m =>
  match m with
  | Raise e => Raise e
  | Ok a => k a
  end.

(** A Python [for] loop whose body updates a local state and may raise. *)
Fixpoint for_each {A S : Type} (l : list A) (body : A -> S -> Exc S) (s : S) : Exc S :=
  match l with
  | [] => Ok s
  | x :: l' => s' ← body x s; for_each l' body s'
  end.

(** [range(a, b)] *)
Definition range (a b : nat) : list nat := seq a (b - a).

(** [l[i]] for a non-negative index. *)
Definition list_get {A : Type} (l : list A) (i : nat) : Exc A :=
  match l !! i with
  | Some x => Ok x
  | None => Raise IndexError
  end.

(** Using an attribute that may still be [None]: [e] is the exception
    Python raises for the operation at hand ([len(None)] and [None[i]] are
    a TypeError, [None.iterrows()] is an AttributeError). *)
Definition not_none {A : Type} (e : PyError) (o : option A) : Exc A :=
  match o with
  | Some x => Ok x
  | None => Raise e
  end.

(** ** Python string methods *)

(** [str.isspace] on the ASCII range. *)
Definition is_space (c : ascii) : bool :=
  let n := nat_of_ascii c in
  (Nat.leb 9 n && Nat.leb n 13) || (Nat.leb 28 n && Nat.leb n 32).

Fixpoint drop_while {A : Type} (f : A -> bool) (l : list A) : list A :=
  match l with
  | [] => []
  | x :: l' => if f x then drop_while f l' else l
  end.

(** [s.strip()] *)
Definition strip (s : string) : string :=
  String.string_of_list_ascii
    (reverse (drop_while is_space (reverse (drop_while is_space (String.list_ascii_of_string s))))).

(** [s.split(sep)] for a one-character separator: never empty. *)
Fixpoint split (sep : ascii) (s : string) : list string :=
  match s with
  | EmptyString => [EmptyString]
  | String c s' =>
      if Ascii.eqb c sep then EmptyString :: split sep s'
      else match split sep s' with
           | w :: ws => String c w :: ws
           | [] => [String c EmptyString]
           end
  end.

(** [sep.join(l)] *)
Definition join (sep : string) (l : list string) : string := String.concat sep l.

(** [p in s] for two strings: [p] occurs in [s] as it is written. *)
Fixpoint is_substring (p s : string) : bool :=
  String.prefix p s ||
  match s with
  | EmptyString => false
  | String _ s' => is_substring p s'
  end.

(** pandas' [Series.str.contains(pat)] on one cell.  pandas reads [pat] as
    a regular expression and searches the cell for a match.  The patterns
    covered are those made of ordinary characters and of the wildcard
    ["."], which stands for any character but a newline; a pattern with
    one of [^ $ * + ? { } [ ] \ | ( )] is outside the model
    ([regex_supported]). *)
Definition matches_char (p c : ascii) : bool :=
  if Ascii.eqb p "." then negb (Ascii.eqb c "010") else Ascii.eqb p c.

Fixpoint match_here (pat s : string) : bool :=
  match pat with
  | EmptyString => true
  | String p pat' =>
      match s with
      | EmptyString => false
      | String c s' => matches_char p c && match_here pat' s'
      end
  end.

Fixpoint str_contains (pat s : string) : bool :=
  match_here pat s ||
  match s with
  | EmptyString => false
  | String _ s' => str_contains pat s'
  end.

Definition regex_special (c : ascii) : bool :=
  bool_decide (c ∈ String.list_ascii_of_string "^$*+?{}[]\|()").

Definition regex_supported (pat : string) : bool :=
  forallb (fun c => negb (regex_special c)) (String.list_ascii_of_string pat).

(** ** What [pd.read_csv] hands over *)





(** ** The two tables *)

Record Researcher : Type := {
  researcher_id : string;
  name : string;
  department : string;
  email : string;
  research_interests : string
}.

Record Publication : Type := {
  publication_id : string;
  title : string;
  abstract : string;
  authors : string;
  year : Z;
  keywords : string
}.


(** ** The recommender object *)

Record Recommender : Type := {
  researchers : option (list Researcher);
  publications : option (list Publication);
  coauthor_matrix : option (list (list Z));
  tfidf_matrix : option (list (list Q));
  researcher_ids : gmap string nat
}.

(** [__init__] *)
Definition init : Recommender := {|
  researchers := None;
  publications := None;
  coauthor_matrix := None;
  tfidf_matrix := None;
  researcher_ids := ∅
|}.

(** [enumerate(l)] *)
Definition enumerate {A : Type} (l : list A) : list (nat * A) :=
  zip (seq 0 (length l)) l.

(** [{name: idx for idx, name in enumerate(names)}]: a later row with the
    same name overwrites the earlier one. *)
Definition id_mapping (names : list string) : gmap string nat :=
  fold_left (fun m p => <[p.2 := p.1]> m) (enumerate names) ∅.

(** [load_data], past its two [os.path.exists] checks: the tables that
    [pd.read_csv] parsed are stored and the id mapping is rebuilt; the
    two matrices are left as they were. *)
Definition load_data (self : Recommender)
    (researchers_csv : list Researcher) (publications_csv : list Publication) : Recommender :=
  {| researchers := Some researchers_csv;
     publications := Some publications_csv;
     coauthor_matrix := coauthor_matrix self;
     tfidf_matrix := tfidf_matrix self;
     researcher_ids := id_mapping (map name researchers_csv) |}.

(** ** Co-authorship matrix *)

(** [np.zeros((n, n))] *)
Definition zeros (n : nat) : list (list Z) := replicate n (replicate n 0%Z).

(** [M[i, j] += 1] *)
Definition matrix_incr (M : list (list Z)) (i j : nat) : Exc (list (list Z)) :=
  match M !! i with
  | None => Raise IndexError
  | Some row =>
      match row !! j with
      | None => Raise IndexError
      | Some x => Ok (<[i := <[j := (x + 1)%Z]> row]> M)
      end
  end.

(** [self.researcher_ids[a]] *)
Definition id_of (ids : gmap string nat) (a : string) : Exc nat :=
  match ids !! a with
  | Some i => Ok i
  | None => Raise (KeyError a)
  end.

(** [[a.strip() for a in pub['authors'].split(',') if a.strip() in ids]],
    for an author cell that is a string; on a NaN cell the code raises
    an AttributeError ([text_tables]). *)
Definition resolved_authors (ids : gmap string nat) (pub : Publication) : list string :=
  filter (fun a => is_Some (ids !! a)) (map strip (split "," (authors pub))).

(** The two nested loops over the positions [i < j] of one publication. *)
Definition count_pairs (ids : gmap string nat) (authors : list string)
    (M : list (list Z)) : Exc (list (list Z)) :=
  for_each (range 0 (length authors)) (fun i M =>
    for_each (range (i + 1) (length authors)) (fun j M =>
      ai ← list_get authors i;
      idx1 ← id_of ids ai;
      aj ← list_get authors j;
      idx2 ← id_of ids aj;
      M ← matrix_incr M idx1 idx2;
      matrix_incr M idx2 idx1) M) M.

Definition build_coauthor_matrix (self : Recommender) : Exc Recommender :=
  rs ← not_none TypeError (researchers self);
  let num_researchers := length rs in
  ps ← not_none AttributeError (publications self);
  M ← for_each ps (fun pub M =>
         count_pairs (researcher_ids self) (resolved_authors (researcher_ids self) pub) M)
       (zeros num_researchers);
  Ok {| researchers := researchers self;
        publications := publications self;
        coauthor_matrix := Some M;
        tfidf_matrix := tfidf_matrix self;
        researcher_ids := researcher_ids self |}.

(** ** Content profiles *)

(** The profile texts collected in [text_data] by the loop of
    [build_content_profiles].  This is what the code computes on cells
    that are strings; on a NaN cell (interests, authors or keywords) it
    raises a TypeError or ValueError instead, and on a name outside the
    covered regular expressions [str.contains] can raise or match
    otherwise ([text_tables], [regex_supported]). *)
Definition profile_text (ps : list Publication) (researcher : Researcher) : string :=
  let pubs := List.filter (fun pub => str_contains (name researcher) (authors pub)) ps in
  research_interests researcher +:+ " " +:+ join " " (map keywords pubs).

Definition text_data (self : Recommender) : Exc (list string) :=
  rs ← not_none AttributeError (researchers self);
  for_each rs (fun researcher text_data =>
    ps ← not_none TypeError (publications self);
    Ok (text_data ++ [profile_text ps researcher])) [].

(** *** scikit-learn's [CountVectorizer], the first half of
    [TfidfVectorizer()]: lower-case the text, take the tokens matched by
    [\b\w\w+\b] (maximal runs of two or more word characters, ASCII
    here), sort the distinct tokens into the vocabulary and count. *)

Definition is_word_char (c : ascii) : bool :=
  let n := nat_of_ascii c in
  (Nat.leb 48 n && Nat.leb n 57) || (Nat.leb 65 n && Nat.leb n 90)
  || (Nat.leb 97 n && Nat.leb n 122) || Nat.eqb n 95.

Definition lower (c : ascii) : ascii :=
  let n := nat_of_ascii c in
  if Nat.leb 65 n && Nat.leb n 90 then ascii_of_nat (n + 32) else c.

(** The token collected so far ([cur], reversed) ends here. *)
Definition flush (cur : list ascii) : list string :=
  if decide (2 <= length cur) then [String.string_of_list_ascii (reverse cur)] else [].

Fixpoint tokens_from (cur : list ascii) (s : list ascii) : list string :=
  match s with
  | [] => flush cur
  | c :: s' =>
      if is_word_char c then tokens_from (c :: cur) s'
      else flush cur ++ tokens_from [] s'
  end.

Definition analyze (text : string) : list string :=
  tokens_from [] (map lower (String.list_ascii_of_string text)).

Definition vocabulary (docs : list (list string)) : list string :=
  merge_sort String.le (remove_dups (concat docs)).

Definition term_counts (vocab : list string) (doc : list string) : list nat :=
  map (fun term => length (filter (fun t => t = term) doc)) vocab.

Definition count_vectorizer (texts : list string) : Exc (list (list nat)) :=
  let docs := map analyze texts in
  let vocab := vocabulary docs in
  match vocab with
  | [] => Raise (ValueError "empty vocabulary; perhaps the documents only contain stop words")
  | _ => Ok (map (term_counts vocab) docs)
  end.

(** ** numpy on one-dimensional float arrays *)

#[global] Instance Qle_dec (x y : Q) : Decision (x <= y)%Q :=
  match Qle_bool x y as b return Qle_bool x y = b -> Decision (x <= y)%Q with
  | true => fun H => left (proj1 (Qle_bool_iff x y) H)
  | false => fun H => right (fun Hle =>
      eq_ind true (fun b => if b then True else False) I false
        (eq_trans (eq_sym (proj2 (Qle_bool_iff x y) Hle)) H))
  end eq_refl.

(** [v.min()] and [v.max()]: a ValueError on a zero-size array. *)
Definition np_min (v : list Q) : Exc Q :=
  match v with
  | [] => Raise (ValueError "zero-size array to reduction operation minimum which has no identity")
  | x :: v' => Ok (fold_left Qmin v' x)
  end.

Definition np_max (v : list Q) : Exc Q :=
  match v with
  | [] => Raise (ValueError "zero-size array to reduction operation maximum which has no identity")
  | x :: v' => Ok (fold_left Qmax v' x)
  end.

(** [np.argsort(v)]: the indices of [v] in ascending order of value.  The
    order numpy gives to equal values is not specified; here they come
    out as the merge sort leaves them.  The proofs below use only that the
    result is a permutation of the indices. *)
Definition argsort (v : list Q) : list nat :=
  map fst (merge_sort (fun p q : nat * Q => (p.2 <= q.2)%Q) (enumerate v)).

(** A slice bound [k] of a sequence of length [n], as Python clamps it. *)
Definition slice_bound (n : nat) (k : Z) : nat :=
  if (k <? 0)%Z then Z.to_nat (Z.max 0 (k + Z.of_nat n)) else Nat.min (Z.to_nat k) n.

(** [l[start:stop]] *)
Definition slice {A : Type} (l : list A) (start stop : Z) : list A :=
  let a := slice_bound (length l) start in
  let b := slice_bound (length l) stop in
  take (b - a) (drop a l).

(** ** Recommendations *)

(** One returned dictionary: the researcher's row and its ['score']. *)
Record Recommendation : Type := {
  rec_row : Researcher;
  score : Q
}.

(** [f"Researcher {researcher_name} not found in database"] *)
Definition not_found_message (researcher_name : string) : string :=
  "Researcher " +:+ researcher_name +:+ " not found in database".

Section Parameters.

(** Rounding to float64. *)
Variable rnd : Q -> Q.

(** [TfidfTransformer]: the idf weighting and l2 normalisation applied
    to the term counts. *)
Variable tfidf_transform : list (list nat) -> list (list Q).

(** [cosine_similarity(x, Y).flatten()] for one row [x]. *)
Variable cosine_similarity : list Q -> list (list Q) -> list Q.

(** The four float operations. *)
Definition fadd (x y : Q) : Q := rnd (x + y).
Definition fsub (x y : Q) : Q := rnd (x - y).
Definition fmul (x y : Q) : Q := rnd (x * y).
Definition fdiv (x y : Q) : Q := rnd (x / y).

(** [(v - v.min()) / (v.max() - v.min() + 1e-6)], the expression applied
    to both score vectors. *)
Definition min_max_normalize (v : list Q) : Exc (list Q) :=
  lo ← np_min v;
  hi ← np_max v;
  lo' ← np_min v;
  Ok (map (fun x => fdiv (fsub x lo) (fadd (fsub hi lo') (rnd (1 # 1000000)))) v).

(** [a + b] with numpy's broadcasting of a one-element array. *)
Definition np_add (a b : list Q) : Exc (list Q) :=
  if decide (length a = length b) then Ok (zip_with fadd a b)
  else match a, b with
       | [x], _ => Ok (map (fadd x) b)
       | _, [y] => Ok (map (fun x => fadd x y) a)
       | _, _ => Raise (ValueError "operands could not be broadcast together")
       end.

(** [TfidfVectorizer().fit_transform(texts)] *)
Definition fit_transform (texts : list string) : Exc (list (list Q)) :=
  counts ← count_vectorizer texts;
  Ok (tfidf_transform counts).

Definition build_content_profiles (self : Recommender) : Exc Recommender :=
  text_data ← text_data self;
  M ← fit_transform text_data;
  Ok {| researchers := researchers self;
        publications := publications self;
        coauthor_matrix := coauthor_matrix self;
        tfidf_matrix := Some M;
        researcher_ids := researcher_ids self |}.

(** The score vector of [recommend_collaborators]: both similarities,
    normalised and blended 0.6 / 0.4. *)
Definition combined_scores (self : Recommender) (researcher_idx : nat) : Exc (list Q) :=
  tfidf ← not_none TypeError (tfidf_matrix self);
  x ← list_get tfidf researcher_idx;
  let content_sim := cosine_similarity x tfidf in
  coauthor ← not_none TypeError (coauthor_matrix self);
  row ← list_get coauthor researcher_idx;
  let collab_sim := map inject_Z row in
  content_sim ← min_max_normalize content_sim;
  collab_sim ← min_max_normalize collab_sim;
  np_add (map (fmul (rnd (6 # 10))) content_sim) (map (fmul (rnd (4 # 10))) collab_sim).

Definition recommend_collaborators (self : Recommender)
    (researcher_name : string) (top_n : Z) : Exc (list Recommendation) :=
  match researcher_ids self !! researcher_name with
  | None => Raise (ValueError (not_found_message researcher_name))
  | Some researcher_idx =>
      combined_scores ← combined_scores self researcher_idx;
      let top_indices := reverse (slice (argsort combined_scores) (- top_n - 1) (-1)) in
      for_each top_indices (fun idx recommendations =>
        if decide (idx ≠ researcher_idx) then
          rs ← not_none AttributeError (researchers self);
          rec ← list_get rs idx;
          s ← list_get combined_scores idx;
          Ok (recommendations ++ [{| rec_row := rec; score := s |}])
        else Ok recommendations) []
  end.

(** The calls of the script's main block, in order. *)
Definition build_models (researchers_csv : list Researcher)
    (publications_csv : list Publication) : Exc Recommender :=
  let recommender := load_data init researchers_csv publications_csv in
  recommender ← build_coauthor_matrix recommender;
  build_content_profiles recommender.

End Parameters.

(** What the proofs use of float rounding: it is monotone, leaves a float
    as it is, and 0, 1 are floats; [1e-6] rounds to a positive float. *)
Class Rounding (rnd : Q -> Q) : Prop := {
  rnd_mono : forall x y, (x <= y)%Q -> (rnd x <= rnd y)%Q;
  rnd_idem : forall x, rnd (rnd x) == rnd x;
  rnd_0 : rnd 0%Q == 0%Q;
  rnd_1 : rnd 1%Q == 1%Q;
  rnd_epsilon : (0 < rnd (1 # 1000000))%Q
}.

(** ** Instances of the parameters *)

(** Round to the nearest integer, ties to even. *)
Definition round_half_even (q : Q) : Z :=
  let f := Qfloor q in
  match (q - inject_Z f ?= 1 # 2)%Q with
  | Lt => f
  | Gt => (f + 1)%Z
  | Eq => if Z.even f then f else (f + 1)%Z
  end.

(** The binade of a positive rational: [floor (log2 x)]. *)
Definition exponent (x : Q) : Z :=
  let k := (Z.log2 (Qnum x) - Z.log2 (Zpos (Qden x)))%Z in
  if Qle_bool (2 ^ k) x then k else (k - 1)%Z.

(** A positive rational rounded to 53 significant bits. *)
Definition round_pos (x : Q) : Q :=
  let s := (2 ^ (52 - exponent x))%Q in
  (inject_Z (round_half_even (x * s)) / s)%Q.

(** Rounding to binary64, to nearest, ties to even; the exponent range is
    not bounded. *)
Definition round64 (x : Q) : Q :=
  match (x ?= 0)%Q with
  | Eq => 0%Q
  | Gt => round_pos x
  | Lt => (- round_pos (- x))%Q
  end.

Definition dot (u v : list Q) : Q := fold_right Qplus 0%Q (zip_with Qmult u v).

(** Square root of a rational: exact on squares of rationals, rounded down
    (on the numerator, over the same denominator) elsewhere. *)
Definition Qsqrt (q : Q) : Q :=
  Qmake (Z.sqrt (Qnum q * Zpos (Qden q))) (Qden q).

(** [sklearn.preprocessing.normalize]: divide a row by its Euclidean norm;
    a zero row is left as it is. *)
Definition l2_normalize (u : list Q) : list Q :=
  let norm := Qsqrt (dot u u) in
  if Qeq_bool norm 0 then u else map (fun x => x / norm)%Q u.

(** [cosine_similarity] normalises both sides and multiplies; this is it
    wherever the norms are rational. *)
Definition cosine_rational (x : list Q) (Y : list (list Q)) : list Q :=
  map (fun y => dot (l2_normalize x) (l2_normalize y)) Y.

(** Term frequencies, each row l2-normalised.  A row with one non-zero
    count becomes that unit vector, whatever positive idf weight scales
    the count first: on such rows this is [TfidfTransformer]'s output. *)
Definition tf_l2 (counts : list (list nat)) : list (list Q) :=
  map (fun row => l2_normalize (map (fun c => inject_Z (Z.of_nat c)) row)) counts.

(** ** Vocabulary of the specification *)

(** [weight(a, b)]: the entry of the matrix, 0 outside it. *)
Definition entry (M : list (list Z)) (a b : nat) : Z :=
  default 0%Z (M !! a ≫= fun row => row !! b).

Definition weight (self : Recommender) (a b : nat) : Z :=
  entry (default [] (coauthor_matrix self)) a b.

(** The indices the names of one publication resolve to, in order. *)
Definition author_indices (ids : gmap string nat) (pub : Publication) : list nat :=
  omap (fun a => ids !! a) (resolved_authors ids pub).

(** How many times index [a] occurs among them. *)
Definition occurrences (a : nat) (idxs : list nat) : Z :=
  Z.of_nat (length (filter (fun x => x = a) idxs)).

(** What one publication adds to entry [(a, b)]. *)
Definition pair_weight (idxs : list nat) (a b : nat) : Z :=
  (occurrences a idxs * occurrences b idxs
   - (if decide (a = b) then occurrences a idxs else 0))%Z.

Definition total_weight (ids : gmap string nat) (ps : list Publication) (a b : nat) : Z :=
  foldr (fun pub acc => (pair_weight (author_indices ids pub) a b + acc)%Z) 0%Z ps.

(** The occurrence products summed over the publications. *)
Definition shared_weight (ids : gmap string nat) (ps : list Publication) (a b : nat) : Z :=
  foldr (fun pub acc =>
    (occurrences a (author_indices ids pub) * occurrences b (author_indices ids pub) + acc)%Z)
    0%Z ps.

(** Both [a] and [b] are among the resolved authors of [pub]. *)
Definition both_listed (ids : gmap string nat) (a b : nat) (pub : Publication) : Prop :=
  a ∈ author_indices ids pub /\ b ∈ author_indices ids pub.

#[global] Instance both_listed_dec (ids : gmap string nat) (a b : nat) (pub : Publication) :
  Decision (both_listed ids a b pub).
Proof. unfold both_listed. apply _. Defined.

(** The number of publications that list both. *)
Definition shared_publications (ids : gmap string nat) (ps : list Publication)
    (a b : nat) : Z :=
  Z.of_nat (length (filter (both_listed ids a b) ps)).

(** Record [rec] is row [i] of the researcher table with score
    [combined[i]]. *)
Definition rec_at (rs : list Researcher) (combined : list Q) (i : nat)
    (rec : Recommendation) : Prop :=
  rs !! i = Some (rec_row rec) /\ combined !! i = Some (score rec).

(** The ranking as the specification words it: drop the query researcher
    from the candidates, order the rest by combined score, highest first,
    and keep the first [top_n]. *)
Definition expected_ranking (combined : list Q) (researcher_idx : nat) (top_n : Z) : list nat :=
  take (Z.to_nat top_n) (filter (fun i => i ≠ researcher_idx) (reverse (argsort combined))).

(** ** Example tables *)

Definition researcher (rid nm interests : string) : Researcher :=
  {| researcher_id := rid; name := nm; department := "Biology";
     email := nm +:+ "@example.org"; research_interests := interests |}.

Definition publication (pid who kws : string) : Publication :=
  {| publication_id := pid; title := "Title"; abstract := "Abstract";
     authors := who; year := 2020%Z; keywords := kws |}.

Definition alice : Researcher := researcher "R000" "Alice" "Genetics".
Definition bob : Researcher := researcher "R001" "Bob" "Genetics".
Definition carol : Researcher := researcher "R002" "Carol" "Quantum".
(** Dana's one interest, the language C, is too short to be a token. *)
Definition dana : Researcher := researcher "R003" "Dana" "C".

Definition al_green : Researcher := researcher "R000" "Al Green" "Genetics".
Definition al_greenberg : Researcher := researcher "R001" "Al Greenberg" "Quantum".

Definition greenberg_paper : Publication :=
  publication "P0000" "Al Greenberg" "Astrophysics".

(** A model with twin profiles.  Alice and Bob have the same interests and
    wrote the one publication together, so their profile texts are equal;
    Carol's text shares no term with theirs.  Each text has a single
    distinct term, so each TF-IDF row is a unit vector: rows 0 and 1 are
    equal, row 2 is orthogonal to them. *)
Definition twin_researchers : list Researcher := [alice; bob; carol].

Definition twin_publications : list Publication :=
  [publication "P0000" "Alice, Bob" "Genetics"].

Definition twin_model : Recommender :=
  match build_models tf_l2 twin_researchers twin_publications with
  | Ok self => self
  | Raise _ => init
  end.

(** ** Vocabulary of the proofs *)

(** An [n] by [n] matrix. *)
Definition square (n : nat) (M : list (list Z)) : Prop :=
  length M = n /\ Forall (fun row => length row = n) M.

(** What [M[i, j] += 1] adds to entry [(a, b)]. *)
Definition hit (i j a b : nat) : Z := if decide (a = i /\ b = j) then 1%Z else 0%Z.

(** What the two updates for the authors [x], [y] add to entry [(a, b)]. *)
Definition delta (x y a b : nat) : Z := (hit x y a b + hit y x a b)%Z.

Definition sum_delta (x : nat) (ys : list nat) (a b : nat) : Z :=
  foldr (fun y acc => (delta x y a b + acc)%Z) 0%Z ys.

(** The sum of [delta] over the pairs of positions [i < j]. *)
Fixpoint pairs_sum (xs : list nat) (a b : nat) : Z :=
  match xs with
  | [] => 0%Z
  | x :: rest => (sum_delta x rest a b + pairs_sum rest a b)%Z
  end.

Definition ind (x a : nat) : Z := if decide (x = a) then 1%Z else 0%Z.

(** [v[i]], 0 outside [v]. *)
Definition value_at (v : list Q) (i : nat) : Q := default 0%Q (v !! i).

(** What holds of the object once the three build calls have returned. *)
Record built_from (tfidf_transform : list (list nat) -> list (list Q))
    (rs : list Researcher) (ps : list Publication) (self : Recommender) : Prop := {
  built_researchers : researchers self = Some rs;
  built_publications : publications self = Some ps;
  built_ids : researcher_ids self = id_mapping (map name rs);
  built_coauthor : exists M, coauthor_matrix self = Some M /\ square (length rs) M /\
    forall a b, entry M a b = total_weight (id_mapping (map name rs)) ps a b;
  built_tfidf : exists counts, count_vectorizer (map (profile_text ps) rs) = Ok counts /\
    tfidf_matrix self = Some (tfidf_transform counts)
}.

(** ** The script of [recommender.py] *)


(** ** More examples *)

(** The score vector of a query in the twin model. *)
Definition twin_scores (researcher_idx : nat) : list Q :=
  match combined_scores round64 cosine_rational twin_model researcher_idx with
  | Ok combined => combined
  | Raise _ => []
  end.

(** * The data generator

    [generate_data.py] fills the two tables that [load_data] reads.  It
    draws from the [random] module and from Faker: both are a state,
    [Rand], that every call reads and advances.  What a call returns from
    a state is a parameter of the embedding; [random.choice],
    [random.randint] and [random.sample] are written over the two
    primitives they rest on, the draw of a number below a bound and the
    positions a sample takes, with the exceptions they raise.  The
    script's [print]s and the writing of the two CSV files are left out:
    the result is the pair of data frames it writes, and [load_data] is
    taken to read them back cell for cell. *)

(** A computation that draws from the random state and may raise. *)
Definition Gen (Rand A : Type) : Type := Rand -> Exc (A * Rand).

#[global] Instance Gen_ret (Rand : Type) : MRet (Gen Rand) := fun A a s => Ok (a, s).
#[global] Instance Gen_bind (Rand : Type) : MBind (Gen Rand) := fun A B k m s =>
  match m s with
  | Raise e => Raise e
  | Ok (a, s') => k a s'
  end.

(** A call that only reads and advances the random state. *)
Definition draw {Rand A : Type} (f : Rand -> A * Rand) : Gen Rand A :=
  fun s => Ok (f s).

(** A computation that does not touch the random state. *)
Definition lift {Rand A : Type} (m : Exc A) : Gen Rand A :=
  fun s => match m with
           | Raise e => Raise e
           | Ok a => Ok (a, s)
           end.

Definition gen_raise {Rand A : Type} (e : PyError) : Gen Rand A := fun _ => Raise e.

(** A [for] loop over [l] whose body draws from the random state. *)
Fixpoint gen_for {Rand A S : Type} (l : list A) (body : A -> S -> Gen Rand S) (s : S)
    : Gen Rand S :=
  match l with
  | [] => mret s
  | x :: l' => s' ← body x s; gen_for l' body s'
  end.

(** The dictionary [fields]: the departments and their subfields, in the
    order they are written. *)
Definition fields : list (string * list string) := [
  ("Computer Science", ["AI"; "Machine Learning"; "NLP"; "Cybersecurity"; "Computer Vision"]);
  ("Biology", ["Genetics"; "Neuroscience"; "Microbiology"; "Ecology"]);
  ("Physics", ["Quantum"; "Astrophysics"; "Condensed Matter"; "Particle Physics"]);
  ("Engineering", ["Electrical"; "Mechanical"; "Civil"; "Biomedical"]);
  ("Mathematics", ["Statistics"; "Applied Math"; "Pure Math"; "Computational"])
].

(** [list(d.keys())] *)
Definition dict_keys {V : Type} (d : list (string * V)) : list string := map fst d.

(** [d[k]] *)
Fixpoint dict_get {V : Type} (d : list (string * V)) (k : string) : Exc V :=
  match d with
  | [] => Raise (KeyError k)
  | (k', v) :: d' => if decide (k' = k) then Ok v else dict_get d' k
  end.

(** [f"{i:0{width}d}"]: the decimal digits of [i], padded with zeros on
    the left up to [width] characters. *)
Definition format_d (width i : nat) : string :=
  let digits := pretty i in
  String.string_of_list_ascii (replicate (width - String.length digits) "0"%char) +:+ digits.

(** [s.replace(c, '')] for a one-character [c]. *)
Definition remove_char (c : ascii) (s : string) : string :=
  String.string_of_list_ascii (filter (fun x => x ≠ c) (String.list_ascii_of_string s)).

Section Generator.

(** The state of the [random] module and of Faker. *)
Variable Rand : Type.

(** [random._randbelow(n)], for a positive [n]. *)
Variable randbelow : nat -> Rand -> nat * Rand.

(** The positions that [random.sample] takes from a population of [n]
    elements for a sample of [k]. *)
Variable sample_positions : nat -> nat -> Rand -> list nat * Rand.

(** [fake.name()], [fake.email()], [fake.sentence(nb_words=n)] and
    [fake.paragraph(nb_sentences=n)]. *)
Variable fake_name : Rand -> string * Rand.
Variable fake_email : Rand -> string * Rand.
Variable fake_sentence : nat -> Rand -> string * Rand.
Variable fake_paragraph : nat -> Rand -> string * Rand.

(** [random.choice(seq)] *)
Definition random_choice {A : Type} (seq : list A) : Gen Rand A :=
  match seq with
  | [] => gen_raise IndexError
  | _ => i ← draw (randbelow (length seq)); lift (list_get seq i)
  end.

(** [random.randint(a, b)]: [a] plus a draw below [b - a + 1]; the
    wording of the error for an empty range varies between versions of
    Python. *)
Definition random_randint (a b : Z) : Gen Rand Z :=
  if (b <? a)%Z then gen_raise (ValueError "empty range for randrange()")
  else i ← draw (randbelow (Z.to_nat (b - a + 1))); mret (a + Z.of_nat i)%Z.

(** [random.sample(population, k)] *)
Definition random_sample {A : Type} (population : list A) (k : nat) : Gen Rand (list A) :=
  if decide (k <= length population) then
    positions ← draw (sample_positions (length population) k);
    lift (mapM (list_get population) positions)
  else gen_raise (ValueError "Sample larger than population or is negative").

(** The dictionary appended for researcher [i]. *)
Definition researcher_row (i : nat) : Gen Rand Researcher :=
  field ← random_choice (dict_keys fields);
  nm ← draw fake_name;
  em ← draw fake_email;
  subfields ← lift (dict_get fields field);
  interests ← random_sample subfields 3;
  mret {| researcher_id := "R" +:+ format_d 3 i;
          name := nm;
          department := field;
          email := em;
          research_interests := join ", " interests |}.

Definition generate_researchers : Gen Rand (list Researcher) :=
  gen_for (range 0 100) (fun i researchers =>
    row ← researcher_row i;
    mret (researchers ++ [row])) [].

(** The dictionary appended for publication [i]. *)
Definition publication_row (researchers_df : list Researcher) (i : nat)
    : Gen Rand Publication :=
  dept ← random_choice (dict_keys fields);
  let potential_authors :=
    map name (filter (fun r => department r = dept) researchers_df) in
  k ← random_randint 1 4;
  sampled ← random_sample potential_authors
               (Nat.min (Z.to_nat k) (length potential_authors));
  sentence ← draw (fake_sentence 6);
  paragraph ← draw (fake_paragraph 3);
  yr ← random_randint 2015 2023;
  subfields ← lift (dict_get fields dept);
  kws ← random_sample subfields 2;
  mret {| publication_id := "P" +:+ format_d 4 i;
          title := remove_char "." sentence;
          abstract := paragraph;
          authors := join ", " sampled;
          year := yr;
          keywords := join ", " kws |}.

Definition generate_publications (researchers_df : list Researcher)
    : Gen Rand (list Publication) :=
  gen_for (range 0 200) (fun i publications =>
    row ← publication_row researchers_df i;
    mret (publications ++ [row])) [].

(** The script: the two data frames it writes to [researchers.csv] and
    [publications.csv]. *)
Definition generate : Gen Rand (list Researcher * list Publication) :=
  researchers_df ← generate_researchers;
  publications_df ← generate_publications researchers_df;
  mret (researchers_df, publications_df).

End Generator.

(** An instance of the random state: a counter that every call
    advances.  A draw below [n] is the counter modulo [n], a sample takes
    the first positions, and the strings of Faker are numbered. *)
Definition counter_randbelow (n : nat) (s : nat) : nat * nat := (s mod n, S s).
Definition counter_positions (n k : nat) (s : nat) : list nat * nat := (seq 0 k, S s).
Definition counter_name (s : nat) : string * nat := ("Researcher " +:+ pretty s, S s).
Definition counter_email (s : nat) : string * nat :=
  ("r" +:+ pretty s +:+ "@example.org", S s).
Definition counter_text (n : nat) (s : nat) : string * nat :=
  ("Text " +:+ pretty s +:+ ".", S s).

Definition counter_generate : Gen nat (list Researcher * list Publication) :=
  generate nat counter_randbelow counter_positions
    counter_name counter_email counter_text counter_text.

(** The tables generated from the counter at 0. *)
Definition counter_tables : list Researcher * list Publication :=
  match counter_generate 0 with
  | Ok (tables, _) => tables
  | Raise _ => ([], [])
  end.

(** ** Vocabulary of the generator's properties *)

(** [out] holds the elements of [population] at [k] distinct positions. *)
Definition sampled_from {A : Type} (k : nat) (population out : list A) : Prop :=
  length out = k /\
  exists positions, NoDup positions /\
    Forall2 (fun j x => population !! j = Some x) positions out.

(** A row as [researcher_row] builds it. *)
Definition researcher_row_ok (i : nat) (r : Researcher) : Prop :=
  researcher_id r = "R" +:+ format_d 3 i /\
  exists subfields interests,
    (department r, subfields) ∈ fields /\
    sampled_from 3 subfields interests /\
    research_interests r = join ", " interests.

(** A row as [publication_row] builds it from the researcher table. *)
Definition publication_row_ok (rs : list Researcher) (i : nat) (pub : Publication) : Prop :=
  publication_id pub = "P" +:+ format_d 4 i /\
  (2015 <= year pub <= 2023)%Z /\
  ("."%char ∉ String.list_ascii_of_string (title pub)) /\
  exists dept subfields k sampled kws,
    (dept, subfields) ∈ fields /\
    1 <= k <= 4 /\
    let potential_authors := map name (filter (fun r => department r = dept) rs) in
    sampled_from (Nat.min k (length potential_authors)) potential_authors sampled /\
    authors pub = join ", " sampled /\
    sampled_from 2 subfields kws /\
    keywords pub = join ", " kws.

(** * Proofs *)

(** ** The id mapping *)

Lemma id_mapping_fold (l : list string) (k : nat) (m : gmap string nat) (nm : string) (i : nat) :
  fold_left (fun m p => <[p.2 := p.1]> m) (zip (seq k (length l)) l) m !! nm = Some i ->
  m !! nm = Some i \/ (k <= i /\ l !! (i - k) = Some nm).
Proof.
  revert k m. induction l as [|x l IH]; intros k m; simpl; [by left|].
  intros H. apply IH in H as [H|[Hle H]].
  - destruct (decide (x = nm)) as [->|Hne].
    + rewrite lookup_insert_eq in H. inversion H; subst.
      right. split; [lia|]. by rewrite Nat.sub_diag.
    + rewrite lookup_insert_ne in H by done. by left.
  - right. split; [lia|].
    replace (i - k) with (S (i - S k)) by lia. done.
Qed.

Lemma id_mapping_lookup (names : list string) (nm : string) (i : nat) :
  id_mapping names !! nm = Some i -> names !! i = Some nm.
Proof.
  unfold id_mapping, enumerate. intros H.
  apply id_mapping_fold in H as [H|[_ H]].
  - by rewrite lookup_empty in H.
  - by rewrite Nat.sub_0_r in H.
Qed.

Lemma id_mapping_lt (names : list string) (nm : string) (i : nat) :
  id_mapping names !! nm = Some i -> i < length names.
Proof. intros H. apply id_mapping_lookup in H. by eapply lookup_lt_Some. Qed.

(** ** Matrix updates *)

Lemma square_zeros (n : nat) : square n (zeros n).
Proof.
  split; [apply length_replicate|].
  apply Forall_replicate, length_replicate.
Qed.

Lemma entry_zeros (n a b : nat) : entry (zeros n) a b = 0%Z.
Proof.
  unfold entry, zeros.
  destruct (replicate n (replicate n 0%Z) !! a) as [row|] eqn:Ha; simpl; [|done].
  apply lookup_replicate_1 in Ha as [-> _].
  destruct (replicate n 0%Z !! b) as [x|] eqn:Hb; simpl; [|done].
  by apply lookup_replicate_1 in Hb as [-> _].
Qed.

Lemma matrix_incr_spec (n : nat) (M : list (list Z)) (i j : nat) :
  square n M -> i < n -> j < n ->
  exists M', matrix_incr M i j = Ok M' /\ square n M' /\
    forall a b, entry M' a b = (entry M a b + hit i j a b)%Z.
Proof.
  intros [Hlen Hrows] Hi Hj. unfold matrix_incr.
  destruct (M !! i) as [row|] eqn:Hrow; last first.
  { apply lookup_ge_None in Hrow. lia. }
  assert (length row = n) as Hr.
  { eapply Forall_lookup_1 in Hrows; eauto. }
  destruct (row !! j) as [x|] eqn:Hx; last first.
  { apply lookup_ge_None in Hx. lia. }
  eexists. split; [done|]. split.
  - split; [by rewrite length_insert|].
    apply Forall_insert; [done|]. by rewrite length_insert.
  - intros a b. unfold entry, hit.
    destruct (decide (a = i)) as [->|Hai].
    + rewrite list_lookup_insert_eq by lia. simpl. rewrite Hrow. simpl.
      destruct (decide (b = j)) as [->|Hbj].
      * rewrite list_lookup_insert_eq by lia. rewrite Hx. simpl.
        rewrite decide_True by done. done.
      * rewrite list_lookup_insert_ne by done.
        rewrite decide_False by tauto. lia.
    + rewrite list_lookup_insert_ne by done.
      rewrite decide_False by tauto. lia.
Qed.

(** ** The pair loops of one publication *)

Section PairLoops.
Variable ids : gmap string nat.
Variable n : nat.
Variable names : list string.
Variable idxs : list nat.
Hypothesis Hres : Forall2 (fun a i => ids !! a = Some i) names idxs.
Hypothesis Hlt : Forall (fun i => i < n) idxs.

Let body (i j : nat) (M : list (list Z)) : Exc (list (list Z)) :=
  ai ← list_get names i;
  idx1 ← id_of ids ai;
  aj ← list_get names j;
  idx2 ← id_of ids aj;
  M ← matrix_incr M idx1 idx2;
  matrix_incr M idx2 idx1.

Lemma get_id (i x : nat) :
  idxs !! i = Some x ->
  exists a, list_get names i = Ok a /\ id_of ids a = Ok x /\ x < n.
Proof.
  intros Hx.
  destruct (Forall2_lookup_r _ _ _ _ _ Hres Hx) as (a & Ha & Hid).
  exists a. unfold list_get, id_of. rewrite Ha, Hid.
  repeat split. by eapply Forall_lookup_1 in Hlt.
Qed.

Lemma body_spec (i j x y : nat) (M : list (list Z)) :
  idxs !! i = Some x -> idxs !! j = Some y -> square n M ->
  exists M', body i j M = Ok M' /\ square n M' /\
    forall a b, entry M' a b = (entry M a b + delta x y a b)%Z.
Proof.
  intros Hx Hy HM. unfold body.
  destruct (get_id _ _ Hx) as (ai & -> & Hi & Hxn).
  destruct (get_id _ _ Hy) as (aj & Hj & Hj' & Hyn).
  simpl. rewrite Hi. simpl. rewrite Hj. simpl. rewrite Hj'. simpl.
  destruct (matrix_incr_spec n M x y HM Hxn Hyn) as (M1 & -> & HM1 & E1).
  simpl.
  destruct (matrix_incr_spec n M1 y x HM1 Hyn Hxn) as (M2 & -> & HM2 & E2).
  exists M2. repeat split; [apply HM2..|].
  intros a b. rewrite E2, E1. unfold delta. lia.
Qed.

Lemma inner_loop_spec (i x : nat) (k j0 : nat) (M : list (list Z)) :
  idxs !! i = Some x -> j0 + k <= length idxs -> square n M ->
  exists M', for_each (seq j0 k) (body i) M = Ok M' /\ square n M' /\
    forall a b, entry M' a b = (entry M a b + sum_delta x (take k (drop j0 idxs)) a b)%Z.
Proof.
  intros Hx. revert j0 M. induction k as [|k IH]; intros j0 M Hk HM.
  - exists M. simpl. repeat split; [apply HM..|]. intros; lia.
  - destruct (lookup_lt_is_Some_2 idxs j0) as [y Hy]; [lia|].
    destruct (body_spec i j0 x y M Hx Hy HM) as (M1 & E1 & HM1 & W1).
    destruct (IH (S j0) M1) as (M2 & E2 & HM2 & W2); [lia|done|].
    exists M2. simpl. rewrite E1. simpl. repeat split; [done|apply HM2..|].
    intros a b. rewrite W2, W1.
    rewrite (drop_S _ _ _ Hy). simpl. lia.
Qed.

Lemma outer_loop_spec (k i0 : nat) (M : list (list Z)) :
  i0 + k = length names -> square n M ->
  exists M', for_each (seq i0 k) (fun i M =>
               for_each (range (i + 1) (length names)) (body i) M) M = Ok M' /\
    square n M' /\
    forall a b, entry M' a b = (entry M a b + pairs_sum (drop i0 idxs) a b)%Z.
Proof.
  pose proof (Forall2_length _ _ _ Hres) as Hlen. unfold range.
  revert i0 M. induction k as [|k IH]; intros i0 M Hk HM.
  - exists M. simpl. repeat split; [apply HM..|]. intros a b.
    rewrite drop_ge by lia. simpl. lia.
  - destruct (lookup_lt_is_Some_2 idxs i0) as [x Hx]; [lia|].
    destruct (inner_loop_spec i0 x (length names - (i0 + 1)) (i0 + 1) M Hx)
      as (M1 & E1 & HM1 & W1); [lia|done|].
    destruct (IH (S i0) M1) as (M2 & E2 & HM2 & W2); [lia|done|].
    exists M2. simpl. rewrite E1. simpl.
    repeat split; [done|apply HM2..|].
    intros a b. rewrite W2, W1.
    rewrite (drop_S _ _ _ Hx). simpl.
    rewrite take_ge by (rewrite length_drop; lia).
    replace (i0 + 1) with (S i0) by lia. lia.
Qed.

Lemma count_pairs_spec (M : list (list Z)) :
  square n M ->
  exists M', count_pairs ids names M = Ok M' /\ square n M' /\
    forall a b, entry M' a b = (entry M a b + pairs_sum idxs a b)%Z.
Proof.
  intros HM. pose proof (Forall2_length _ _ _ Hres) as Hlen.
  destruct (outer_loop_spec (length names) 0 M) as (M' & E & HM' & W); [lia|done|].
  exists M'. unfold count_pairs. unfold range at 1. by rewrite Nat.sub_0_r.
Qed.
End PairLoops.

(** ** The closed form of the pair count *)

Lemma occurrences_cons (a x : nat) (xs : list nat) :
  occurrences a (x :: xs) = (ind x a + occurrences a xs)%Z.
Proof.
  unfold occurrences, ind. rewrite filter_cons.
  destruct (decide (x = a)); simpl; lia.
Qed.

Lemma occurrences_nonneg (a : nat) (xs : list nat) : (0 <= occurrences a xs)%Z.
Proof. unfold occurrences. lia. Qed.

Lemma delta_ind (x y a b : nat) :
  delta x y a b = (ind x a * ind y b + ind y a * ind x b)%Z.
Proof.
  unfold delta, hit, ind.
  repeat case_decide; subst; try lia; tauto.
Qed.

Lemma sum_delta_occurrences (x : nat) (ys : list nat) (a b : nat) :
  sum_delta x ys a b = (ind x a * occurrences b ys + ind x b * occurrences a ys)%Z.
Proof.
  induction ys as [|y ys IH]; simpl.
  - unfold occurrences. simpl. lia.
  - rewrite IH, delta_ind, !occurrences_cons. lia.
Qed.

Lemma pairs_sum_closed (xs : list nat) (a b : nat) :
  pairs_sum xs a b = pair_weight xs a b.
Proof.
  unfold pair_weight. induction xs as [|x xs IH]; simpl.
  - unfold occurrences. simpl. case_decide; lia.
  - rewrite IH, sum_delta_occurrences, !occurrences_cons.
    unfold ind. repeat case_decide; subst; try congruence; lia.
Qed.

(** ** Resolution of author names *)

Lemma author_indices_resolved (ids : gmap string nat) (pub : Publication) :
  Forall2 (fun a i => ids !! a = Some i) (resolved_authors ids pub) (author_indices ids pub).
Proof.
  unfold author_indices, resolved_authors.
  induction (map strip (split "," (authors pub))) as [|a l IH]; [constructor|].
  rewrite filter_cons. destruct (decide (is_Some (ids !! a))) as [[i Hi]|Hn]; [|done].
  simpl. rewrite Hi. simpl. by constructor.
Qed.

Lemma author_indices_lt (names : list string) (pub : Publication) :
  Forall (fun i => i < length names) (author_indices (id_mapping names) pub).
Proof.
  pose proof (author_indices_resolved (id_mapping names) pub) as H.
  induction H as [|a i l k Hi _ IH]; constructor; [|done].
  by eapply id_mapping_lt.
Qed.

(** ** [build_coauthor_matrix] on loaded data *)

Lemma publications_loop_spec (names : list string) (ps : list Publication) (M : list (list Z)) :
  let ids := id_mapping names in
  square (length names) M ->
  exists M', for_each ps (fun pub M =>
               count_pairs ids (resolved_authors ids pub) M) M = Ok M' /\
    square (length names) M' /\
    forall a b, entry M' a b = (entry M a b + total_weight ids ps a b)%Z.
Proof.
  intros ids. revert M. induction ps as [|pub ps IH]; intros M HM.
  - exists M. simpl. repeat split; [apply HM..|]. intros; lia.
  - destruct (count_pairs_spec ids (length names) _ _
                (author_indices_resolved ids pub) (author_indices_lt names pub) M HM)
      as (M1 & E1 & HM1 & W1).
    destruct (IH M1 HM1) as (M2 & E2 & HM2 & W2).
    exists M2. simpl. rewrite E1. simpl. repeat split; [done|apply HM2..|].
    intros a b. rewrite W2, W1, pairs_sum_closed. lia.
Qed.

Lemma build_coauthor_matrix_spec (self : Recommender)
    (rs : list Researcher) (ps : list Publication) :
  exists M,
    build_coauthor_matrix (load_data self rs ps) =
      Ok {| researchers := Some rs;
            publications := Some ps;
            coauthor_matrix := Some M;
            tfidf_matrix := tfidf_matrix self;
            researcher_ids := id_mapping (map name rs) |} /\
    square (length rs) M /\
    forall a b, entry M a b = total_weight (id_mapping (map name rs)) ps a b.
Proof.
  unfold build_coauthor_matrix, load_data. simpl.
  destruct (publications_loop_spec (map name rs) ps (zeros (length (map name rs))))
    as (M & E & HM & W); [apply square_zeros|].
  rewrite length_map in *.
  exists M. rewrite E. simpl. repeat split; [apply HM..|].
  intros a b. rewrite W, entry_zeros. lia.
Qed.

Lemma pair_weight_sym (idxs : list nat) (a b : nat) :
  pair_weight idxs a b = pair_weight idxs b a.
Proof. unfold pair_weight. repeat case_decide; subst; try congruence; lia. Qed.

Lemma total_weight_sym (ids : gmap string nat) (ps : list Publication) (a b : nat) :
  total_weight ids ps a b = total_weight ids ps b a.
Proof.
  induction ps as [|pub ps IH]; simpl; [done|].
  by rewrite IH, pair_weight_sym.
Qed.

Lemma total_weight_distinct (ids : gmap string nat) (ps : list Publication) (a b : nat) :
  a <> b -> total_weight ids ps a b = shared_weight ids ps a b.
Proof.
  intros Hab. induction ps as [|pub ps IH]; simpl; [done|].
  rewrite IH. unfold pair_weight. rewrite decide_False by done. lia.
Qed.

Lemma occurrences_pos (a : nat) (idxs : list nat) :
  a ∈ idxs <-> (0 < occurrences a idxs)%Z.
Proof.
  induction idxs as [|x idxs IH].
  - split; [by intros ?%elem_of_nil|done].
  - rewrite occurrences_cons, elem_of_cons, IH. unfold ind.
    pose proof (occurrences_nonneg a idxs).
    destruct (decide (x = a)) as [->|Hne]; split.
    + lia.
    + by left.
    + intros [->|?]; [done|lia].
    + right. lia.
Qed.

Lemma shared_weight_without_repeats (ids : gmap string nat) (ps : list Publication)
    (a b : nat) :
  Forall (fun pub => (occurrences a (author_indices ids pub) <= 1)%Z /\
                     (occurrences b (author_indices ids pub) <= 1)%Z) ps ->
  shared_weight ids ps a b = shared_publications ids ps a b.
Proof.
  unfold shared_publications.
  induction 1 as [|pub ps [Ha Hb] _ IH]; [done|].
  simpl. rewrite IH, filter_cons. unfold both_listed at 2.
  pose proof (occurrences_nonneg a (author_indices ids pub)).
  pose proof (occurrences_nonneg b (author_indices ids pub)).
  destruct (decide _) as [[Ha'%occurrences_pos Hb'%occurrences_pos]|Hn].
  - simpl length. nia.
  - assert (occurrences a (author_indices ids pub) = 0
            \/  occurrences b (author_indices ids pub) = 0)%Z as [->| ->]; [|lia..].
    destruct (decide (0 < occurrences a (author_indices ids pub))%Z) as [Ha'|]; [|lia].
    destruct (decide (0 < occurrences b (author_indices ids pub))%Z) as [Hb'|]; [|lia].
    destruct Hn. split; by apply occurrences_pos.
Qed.

Lemma total_weight_diagonal (ids : gmap string nat) (ps : list Publication) (a : nat) :
  Forall (fun pub => (occurrences a (author_indices ids pub) <= 1)%Z) ps ->
  total_weight ids ps a a = 0%Z.
Proof.
  induction 1 as [|pub ps Hle _ IH]; simpl; [done|].
  rewrite IH. unfold pair_weight. rewrite decide_True by done.
  pose proof (occurrences_nonneg a (author_indices ids pub)). nia.
Qed.

(** * The claims about [build_coauthor_matrix] *)

(** C6.  Whatever the two tables hold, [build_coauthor_matrix] returns, and
    the matrix it stores is symmetric: weight(a,b) = weight(b,a) for every
    pair of researcher indices. *)
Theorem coauthor_matrix_symmetric (self : Recommender)
    (rs : list Researcher) (ps : list Publication) :
  exists self', build_coauthor_matrix (load_data self rs ps) = Ok self' /\
    forall a b, weight self' a b = weight self' b a.
Proof.
  destruct (build_coauthor_matrix_spec self rs ps) as (M & E & _ & W).
  eexists. split; [exact E|].
  intros a b. unfold weight. simpl. rewrite !W. apply total_weight_sym.
Qed.

(** C4, as the code has it.  The diagonal entry of researcher [a] stays 0
    provided no publication's resolved author list names [a] more than
    once. *)
Theorem diagonal_zero_without_repeats (self : Recommender)
    (rs : list Researcher) (ps : list Publication) (a : nat) :
  Forall (fun pub =>
    (occurrences a (author_indices (id_mapping (map name rs)) pub) <= 1)%Z) ps ->
  exists self', build_coauthor_matrix (load_data self rs ps) = Ok self' /\
    weight self' a a = 0%Z.
Proof.
  intros Hps.
  destruct (build_coauthor_matrix_spec self rs ps) as (M & E & _ & W).
  eexists. split; [exact E|].
  unfold weight. simpl. rewrite W. by apply total_weight_diagonal.
Qed.

Lemma diagonal_zero_without_repeats_witness :
  Forall (fun pub =>
    (occurrences 0 (author_indices (id_mapping (map name [alice; bob])) pub) <= 1)%Z)
    [publication "P0000" "Alice, Bob" "Genetics"] /\
  exists self',
    build_coauthor_matrix
      (load_data init [alice; bob] [publication "P0000" "Alice, Bob" "Genetics"]) = Ok self' /\
    weight self' 0 0 = 0%Z.
Proof.
  assert (Forall (fun pub =>
    (occurrences 0 (author_indices (id_mapping (map name [alice; bob])) pub) <= 1)%Z)
    [publication "P0000" "Alice, Bob" "Genetics"]) as H.
  { repeat constructor. vm_compute. discriminate. }
  split; [exact H|].
  exact (diagonal_zero_without_repeats init [alice; bob] _ 0 H).
Defined.

(** C4, as stated, fails: a publication whose author field repeats a name
    pairs the two occurrences and adds 2 to that researcher's diagonal
    entry. *)
Lemma diagonal_incremented_by_repeated_name :
  exists self',
    build_coauthor_matrix
      (load_data init [alice] [publication "P0000" "Alice, Alice" "Genetics"]) = Ok self' /\
    weight self' 0 0 = 2%Z /\ weight self' 0 0 <> 0%Z.
Proof. eexists. split; [vm_compute; reflexivity|]. split; [reflexivity|discriminate]. Qed.

(** C5, as the code has it.  For distinct researchers [a] and [b] each
    publication adds to weight(a,b) the number of occurrences of [a] times
    the number of occurrences of [b] in its resolved author list.  Where
    no publication repeats either name, that is 1 for each publication
    listing both: the weight is the number of such publications. *)
Theorem weight_counts_occurrence_products (self : Recommender)
    (rs : list Researcher) (ps : list Publication) (a b : nat) :
  a <> b ->
  let ids := id_mapping (map name rs) in
  exists self', build_coauthor_matrix (load_data self rs ps) = Ok self' /\
    weight self' a b = shared_weight ids ps a b /\
    (Forall (fun pub => (occurrences a (author_indices ids pub) <= 1)%Z /\
                        (occurrences b (author_indices ids pub) <= 1)%Z) ps ->
     weight self' a b = shared_publications ids ps a b).
Proof.
  intros Hab ids.
  destruct (build_coauthor_matrix_spec self rs ps) as (M & E & _ & W).
  eexists. split; [exact E|].
  unfold weight. simpl. rewrite W, total_weight_distinct by done.
  split; [done|]. apply shared_weight_without_repeats.
Qed.

Lemma weight_counts_occurrence_products_witness :
  0 <> 1 /\
  let rs := [alice; bob; carol] in
  let ps := [publication "P0000" "Alice, Bob" "Genetics";
             publication "P0001" "Bob, Carol" "Quantum";
             publication "P0002" "Bob, Alice" "Ecology"] in
  let ids := id_mapping (map name rs) in
  exists self', build_coauthor_matrix (load_data init rs ps) = Ok self' /\
    weight self' 0 1 = shared_weight ids ps 0 1 /\
    (Forall (fun pub => (occurrences 0 (author_indices ids pub) <= 1)%Z /\
                        (occurrences 1 (author_indices ids pub) <= 1)%Z) ps ->
     weight self' 0 1 = shared_publications ids ps 0 1).
Proof.
  assert (0 <> 1) as H by lia.
  split; [exact H|].
  exact (weight_counts_occurrence_products init [alice; bob; carol] _ 0 1 H).
Defined.

(** C5, as stated, fails: with a name listed twice, one publication adds 2
    to the weight of a pair. *)
Lemma repeated_name_counted_twice :
  exists self',
    build_coauthor_matrix
      (load_data init [alice; bob] [publication "P0000" "Alice, Alice, Bob" "Genetics"])
      = Ok self' /\
    weight self' 0 1 = 2%Z /\ weight self' 0 1 <> 1%Z.
Proof. eexists. split; [vm_compute; reflexivity|]. split; [reflexivity|discriminate]. Qed.

(** * Rounding to binary64 *)

Local Open Scope Q_scope.

Lemma round_half_even_bounds (q : Q) :
  (Qfloor q <= round_half_even q)%Z /\ (round_half_even q <= Qfloor q + 1)%Z.
Proof.
  unfold round_half_even.
  destruct (q - inject_Z (Qfloor q) ?= 1 # 2); [destruct (Z.even _)|..]; lia.
Qed.

Lemma round_half_even_Z (z : Z) : round_half_even (inject_Z z) = z.
Proof.
  unfold round_half_even. rewrite Qfloor_Z.
  assert ((inject_Z z - inject_Z z ?= 1 # 2) = Lt) as ->; [|done].
  apply Qlt_alt. unfold Qminus. rewrite Qplus_opp_r. reflexivity.
Qed.

#[global] Instance round_half_even_proper : Proper (Qeq ==> eq) round_half_even.
Proof.
  intros x y H. unfold round_half_even.
  rewrite (Qfloor_comp _ _ H).
  assert (x - inject_Z (Qfloor y) == y - inject_Z (Qfloor y)) as E by (by rewrite H).
  by rewrite (Qcompare_comp _ _ E _ _ (Qeq_refl (1 # 2))).
Qed.

Lemma round_half_even_mono (x y : Q) :
  x <= y -> (round_half_even x <= round_half_even y)%Z.
Proof.
  intros H. pose proof (Qfloor_resp_le _ _ H) as Hf.
  pose proof (round_half_even_bounds x) as [_ Hx].
  pose proof (round_half_even_bounds y) as [Hy _].
  destruct (decide (Qfloor x < Qfloor y)%Z) as [Hlt|Hge]; [lia|].
  assert (Qfloor x = Qfloor y) as E by lia. clear Hx Hy Hf Hge.
  unfold round_half_even. rewrite E.
  assert (x - inject_Z (Qfloor y) <= y - inject_Z (Qfloor y)) as Hr
    by (by apply Qplus_le_l).
  destruct (x - inject_Z (Qfloor y) ?= 1 # 2) eqn:Cx;
    destruct (y - inject_Z (Qfloor y) ?= 1 # 2) eqn:Cy;
    try match goal with |- context [Z.even ?f] => destruct (Z.even f) end;
    try lia; exfalso.
  - apply Qeq_alt in Cx. apply Qlt_alt in Cy. rewrite Cx in Hr.
    by apply Qle_not_lt in Hr.
  - apply Qgt_alt in Cx. apply Qeq_alt in Cy. rewrite Cy in Hr.
    by apply Qle_not_lt in Hr.
  - apply Qgt_alt in Cx. apply Qlt_alt in Cy.
    apply (Qle_not_lt _ _ Hr). by apply Qlt_trans with (1 # 2).
Qed.

Lemma pow2_pos (e : Z) : 0 < 2 ^ e.
Proof. by apply Qpower_0_lt. Qed.

Lemma pow2_le (e1 e2 : Z) : (e1 <= e2)%Z -> 2 ^ e1 <= 2 ^ e2.
Proof. intros H. by apply Qpower_le_compat_l. Qed.

Lemma pow2_inject (e : Z) : (0 <= e)%Z -> inject_Z (2 ^ e) == 2 ^ e.
Proof. intros H. by rewrite Zpower_Qpower. Qed.

Lemma pow2_minus (a b : Z) : 2 ^ (a - b) == 2 ^ a / 2 ^ b.
Proof. by apply Qpower_minus. Qed.

Lemma log2_bounds (n : Z) :
  (0 < n)%Z -> 2 ^ Z.log2 n <= inject_Z n /\ inject_Z n < 2 ^ (Z.log2 n + 1).
Proof.
  intros Hn. destruct (Z.log2_spec n Hn) as [H1 H2].
  pose proof (Z.log2_nonneg n) as H0.
  rewrite <- !pow2_inject by lia. split.
  - by rewrite <- Zle_Qle.
  - rewrite <- Zlt_Qlt. by rewrite <- Z.add_1_r in H2.
Qed.

Lemma exponent_rough (x : Q) :
  0 < x ->
  let k := (Z.log2 (Qnum x) - Z.log2 (Zpos (Qden x)))%Z in
  2 ^ (k - 1) <= x /\ x < 2 ^ (k + 1).
Proof.
  intros Hx k. destruct x as [n d]. cbn [Qnum Qden] in k.
  assert (0 < n)%Z as Hn.
  { unfold Qlt in Hx. simpl in Hx. lia. }
  destruct (log2_bounds n Hn) as [N1 N2].
  destruct (log2_bounds (Zpos d) eq_refl) as [D1 D2].
  assert (0 < inject_Z (Zpos d)) as Hd by reflexivity.
  rewrite (Qmake_Qdiv n d). split.
  - apply Qle_shift_div_l; [done|].
    replace (k - 1)%Z with (Z.log2 n - (Z.log2 (Zpos d) + 1))%Z by (unfold k; lia).
    rewrite pow2_minus.
    apply Qle_trans with (2 ^ Z.log2 n / 2 ^ (Z.log2 (Z.pos d) + 1)
                          * 2 ^ (Z.log2 (Z.pos d) + 1)).
    + apply Qmult_le_l; [|by apply Qlt_le_weak].
      apply Qlt_shift_div_l; [apply pow2_pos|]. rewrite Qmult_0_l. apply pow2_pos.
    + rewrite Qmult_comm, Qmult_div_r; [done|].
      intros E. pose proof (pow2_pos (Z.log2 (Z.pos d) + 1)) as P.
      rewrite E in P. by apply Qlt_irrefl in P.
  - apply Qlt_shift_div_r; [done|].
    replace (k + 1)%Z with (Z.log2 n + 1 - Z.log2 (Zpos d))%Z by (unfold k; lia).
    rewrite pow2_minus.
    apply Qlt_le_trans with (2 ^ (Z.log2 n + 1)); [done|].
    apply Qle_trans with (2 ^ (Z.log2 n + 1) / 2 ^ Z.log2 (Z.pos d)
                          * 2 ^ Z.log2 (Z.pos d)).
    + rewrite Qmult_comm, Qmult_div_r; [apply Qle_refl|].
      intros E. pose proof (pow2_pos (Z.log2 (Z.pos d))) as P.
      rewrite E in P. by apply Qlt_irrefl in P.
    + apply Qmult_le_l; [|done].
      apply Qlt_shift_div_l; [apply pow2_pos|]. rewrite Qmult_0_l. apply pow2_pos.
Qed.

Lemma exponent_spec (x : Q) :
  0 < x -> 2 ^ exponent x <= x /\ x < 2 ^ (exponent x + 1).
Proof.
  intros Hx. destruct (exponent_rough x Hx) as [H1 H2]. unfold exponent.
  destruct (Qle_bool _ x) eqn:E.
  - apply Qle_bool_iff in E. by split.
  - split; [done|].
    replace (Z.log2 (Qnum x) - Z.log2 (Z.pos (Qden x)) - 1 + 1)%Z
      with (Z.log2 (Qnum x) - Z.log2 (Z.pos (Qden x)))%Z by lia.
    apply Qnot_le_lt. intros H. apply Qle_bool_iff in H. congruence.
Qed.

Lemma exponent_unique (x : Q) (e : Z) :
  2 ^ e <= x -> x < 2 ^ (e + 1) -> exponent x = e.
Proof.
  intros H1 H2.
  assert (0 < x) as Hx by (eapply Qlt_le_trans; [apply pow2_pos|exact H1]).
  destruct (exponent_spec x Hx) as [E1 E2].
  assert (exponent x < e + 1)%Z.
  { apply (Qpower_lt_compat_l_inv 2); [|done]. by apply Qle_lt_trans with x. }
  assert (e < exponent x + 1)%Z.
  { apply (Qpower_lt_compat_l_inv 2); [|done]. by apply Qle_lt_trans with x. }
  lia.
Qed.

Lemma pow2_plus (a b : Z) : 2 ^ (a + b) == 2 ^ a * 2 ^ b.
Proof. by apply Qpower_plus. Qed.

Lemma pow2_neq_0 (e : Z) : ~ 2 ^ e == 0.
Proof. intros E. pose proof (pow2_pos e) as P. rewrite E in P. by apply Qlt_irrefl in P. Qed.

Lemma scale_back (e : Z) : 2 ^ 52 / 2 ^ (52 - e) == 2 ^ e.
Proof. rewrite <- pow2_minus. by replace (52 - (52 - e))%Z with e by lia. Qed.

Lemma scale_back_53 (e : Z) : 2 ^ 53 / 2 ^ (52 - e) == 2 ^ (e + 1).
Proof. rewrite <- pow2_minus. by replace (53 - (52 - e))%Z with (e + 1)%Z by lia. Qed.

Lemma scaled_bounds (x : Q) :
  0 < x ->
  2 ^ 52 <= x * 2 ^ (52 - exponent x) /\ x * 2 ^ (52 - exponent x) < 2 ^ 53.
Proof.
  intros Hx. destruct (exponent_spec x Hx) as [H1 H2].
  pose proof (pow2_pos (52 - exponent x)) as Hs. split.
  - assert (2 ^ 52 == 2 ^ exponent x * 2 ^ (52 - exponent x)) as ->.
    { rewrite <- pow2_plus. by replace (exponent x + (52 - exponent x))%Z with 52%Z by lia. }
    by apply Qmult_le_r.
  - assert (2 ^ 53 == 2 ^ (exponent x + 1) * 2 ^ (52 - exponent x)) as ->.
    { rewrite <- pow2_plus.
      by replace (exponent x + 1 + (52 - exponent x))%Z with 53%Z by lia. }
    by apply Qmult_lt_r.
Qed.

Lemma mantissa_bounds (x : Q) :
  0 < x ->
  let m := round_half_even (x * 2 ^ (52 - exponent x)) in
  (2 ^ 52 <= m)%Z /\ (m <= 2 ^ 53)%Z.
Proof.
  intros Hx m. destruct (scaled_bounds x Hx) as [H1 H2]. split.
  - rewrite <- (round_half_even_Z (2 ^ 52)). apply round_half_even_mono.
    by rewrite pow2_inject.
  - rewrite <- (round_half_even_Z (2 ^ 53)). apply round_half_even_mono.
    rewrite pow2_inject by done. by apply Qlt_le_weak.
Qed.

Lemma round_pos_bounds (x : Q) :
  0 < x -> 2 ^ exponent x <= round_pos x /\ round_pos x <= 2 ^ (exponent x + 1).
Proof.
  intros Hx. destruct (mantissa_bounds x Hx) as [H1 H2].
  pose proof (pow2_pos (52 - exponent x)) as Hs.
  unfold round_pos. split.
  - rewrite <- (scale_back (exponent x)).
    apply Qmult_le_r; [by apply Qinv_lt_0_compat|].
    rewrite <- (pow2_inject 52) by done. by rewrite <- Zle_Qle.
  - rewrite <- (scale_back_53 (exponent x)).
    apply Qmult_le_r; [by apply Qinv_lt_0_compat|].
    rewrite <- (pow2_inject 53) by done. by rewrite <- Zle_Qle.
Qed.

Lemma round_pos_pos (x : Q) : 0 < x -> 0 < round_pos x.
Proof.
  intros Hx. destruct (round_pos_bounds x Hx) as [H _].
  eapply Qlt_le_trans; [apply pow2_pos|exact H].
Qed.

Lemma exponent_mono (x y : Q) : 0 < x -> x <= y -> (exponent x <= exponent y)%Z.
Proof.
  intros Hx Hxy.
  destruct (exponent_spec x Hx) as [X1 _].
  destruct (exponent_spec y (Qlt_le_trans _ _ _ Hx Hxy)) as [_ Y2].
  assert (exponent x < exponent y + 1)%Z; [|lia].
  apply (Qpower_lt_compat_l_inv 2); [|done].
  apply Qle_lt_trans with x; [done|]. by apply Qle_lt_trans with y.
Qed.

Lemma round_pos_mono (x y : Q) : 0 < x -> x <= y -> round_pos x <= round_pos y.
Proof.
  intros Hx Hxy. assert (0 < y) as Hy by (by apply Qlt_le_trans with x).
  pose proof (exponent_mono x y Hx Hxy) as He.
  destruct (decide (exponent x = exponent y)) as [E|Hne].
  - unfold round_pos. rewrite E.
    pose proof (pow2_pos (52 - exponent y)) as Hs.
    apply Qmult_le_r; [by apply Qinv_lt_0_compat|].
    rewrite <- Zle_Qle. apply round_half_even_mono.
    by apply Qmult_le_r.
  - destruct (round_pos_bounds x Hx) as [_ X2].
    destruct (round_pos_bounds y Hy) as [Y1 _].
    apply Qle_trans with (2 ^ (exponent x + 1)); [done|].
    apply Qle_trans with (2 ^ exponent y); [|done].
    apply pow2_le. lia.
Qed.

Lemma round_pos_proper (x y : Q) : 0 < x -> x == y -> round_pos x == round_pos y.
Proof.
  intros Hx H. apply Qle_antisym; apply round_pos_mono; try done.
  - rewrite H. apply Qle_refl.
  - by rewrite <- H.
  - rewrite H. apply Qle_refl.
Qed.

(** A 53-bit integer over a power of two is a float. *)
Lemma round_pos_representable (m e : Z) :
  (2 ^ 52 <= m)%Z -> (m < 2 ^ 53)%Z ->
  round_pos (inject_Z m / 2 ^ (52 - e)) == inject_Z m / 2 ^ (52 - e).
Proof.
  intros H1 H2. pose proof (pow2_pos (52 - e)) as Hs.
  assert (exponent (inject_Z m / 2 ^ (52 - e)) = e) as E.
  { apply exponent_unique.
    - rewrite <- (scale_back e).
      apply Qmult_le_r; [by apply Qinv_lt_0_compat|].
      rewrite <- (pow2_inject 52) by done. by rewrite <- Zle_Qle.
    - rewrite <- (scale_back_53 e).
      apply Qmult_lt_r; [by apply Qinv_lt_0_compat|].
      rewrite <- (pow2_inject 53) by done. by rewrite <- Zlt_Qlt. }
  unfold round_pos. rewrite E.
  assert (inject_Z m / 2 ^ (52 - e) * 2 ^ (52 - e) == inject_Z m) as ->.
  { rewrite Qmult_comm. apply Qmult_div_r. apply pow2_neq_0. }
  by rewrite round_half_even_Z.
Qed.

Lemma round_pos_idem (x : Q) : 0 < x -> round_pos (round_pos x) == round_pos x.
Proof.
  intros Hx. destruct (mantissa_bounds x Hx) as [H1 H2].
  destruct (decide (round_half_even (x * 2 ^ (52 - exponent x)) < 2 ^ 53)%Z) as [Hlt|Hge].
  - unfold round_pos at 2 3. by apply round_pos_representable.
  - assert (round_pos x == inject_Z (2 ^ 52) / 2 ^ (52 - (exponent x + 1))) as E.
    { unfold round_pos.
      replace (round_half_even (x * 2 ^ (52 - exponent x))) with (2 ^ 53)%Z by lia.
      rewrite !pow2_inject by done. rewrite scale_back, scale_back_53. reflexivity. }
    rewrite (round_pos_proper _ _ (round_pos_pos x Hx) E), E.
    by apply round_pos_representable.
Qed.

Lemma round64_pos (x : Q) : 0 < x -> round64 x = round_pos x.
Proof.
  intros H. unfold round64.
  assert ((x ?= 0) = Gt) as -> by (by apply Qgt_alt). done.
Qed.

Lemma round64_neg (x : Q) : x < 0 -> round64 x = - round_pos (- x).
Proof.
  intros H. unfold round64.
  assert ((x ?= 0) = Lt) as -> by (by apply Qlt_alt). done.
Qed.

Lemma round64_zero (x : Q) : x == 0 -> round64 x = 0.
Proof.
  intros H. unfold round64.
  assert ((x ?= 0) = Eq) as -> by (by apply Qeq_alt). done.
Qed.

Lemma opp_pos (x : Q) : x < 0 -> 0 < - x.
Proof. intros H. apply Qopp_lt_compat in H. exact H. Qed.

Lemma round64_neg_lt (x : Q) : x < 0 -> round64 x < 0.
Proof.
  intros H. rewrite (round64_neg x H).
  pose proof (round_pos_pos (- x) (opp_pos x H)) as P.
  apply Qopp_lt_compat in P. exact P.
Qed.

Lemma round64_mono (x y : Q) : x <= y -> round64 x <= round64 y.
Proof.
  intros H.
  destruct (Q_dec x 0) as [[Hx|Hx]|Hx]; destruct (Q_dec y 0) as [[Hy|Hy]|Hy].
  - rewrite (round64_neg x Hx), (round64_neg y Hy).
    apply Qopp_le_compat, round_pos_mono; [by apply opp_pos|by apply Qopp_le_compat].
  - rewrite (round64_pos y Hy). apply Qlt_le_weak.
    apply Qlt_trans with 0; [by apply round64_neg_lt|by apply round_pos_pos].
  - rewrite (round64_zero y Hy). apply Qlt_le_weak. by apply round64_neg_lt.
  - exfalso. apply (Qlt_irrefl 0). apply Qlt_le_trans with x; [done|].
    apply Qle_trans with y; [done|by apply Qlt_le_weak].
  - rewrite (round64_pos x Hx), (round64_pos y Hy). by apply round_pos_mono.
  - exfalso. apply (Qlt_irrefl 0). apply Qlt_le_trans with x; [done|].
    by rewrite <- Hy.
  - exfalso. apply (Qlt_irrefl 0). apply Qle_lt_trans with y; [|done].
    by rewrite <- Hx.
  - rewrite (round64_zero x Hx), (round64_pos y Hy).
    apply Qlt_le_weak. by apply round_pos_pos.
  - rewrite (round64_zero x Hx), (round64_zero y Hy). apply Qle_refl.
Qed.

Lemma round64_idem (x : Q) : round64 (round64 x) == round64 x.
Proof.
  destruct (Q_dec x 0) as [[Hx|Hx]|Hx].
  - pose proof (round64_neg_lt x Hx) as Hr.
    rewrite (round64_neg _ Hr). rewrite (round64_neg x Hx) in *.
    pose proof (round_pos_pos (- x) (opp_pos x Hx)) as P.
    assert (- - round_pos (- x) == round_pos (- x)) as E by apply Qopp_involutive.
    rewrite (round_pos_proper _ _ (opp_pos _ Hr) E).
    by rewrite (round_pos_idem _ (opp_pos x Hx)).
  - rewrite (round64_pos x Hx).
    rewrite (round64_pos _ (round_pos_pos x Hx)). by apply round_pos_idem.
  - by rewrite (round64_zero x Hx).
Qed.

#[global] Instance round64_Rounding : Rounding round64.
Proof.
  split.
  - apply round64_mono.
  - apply round64_idem.
  - reflexivity.
  - vm_compute. reflexivity.
  - vm_compute. reflexivity.
Qed.

Local Open Scope Z_scope.
Local Open Scope nat_scope.
(** * Min-max normalisation *)

Lemma fold_min_le_init (v : list Q) (x : Q) : (fold_left Qmin v x <= x)%Q.
Proof.
  revert x. induction v as [|y v IH]; intros x; simpl; [apply Qle_refl|].
  eapply Qle_trans; [apply IH|apply Q.le_min_l].
Qed.

Lemma fold_min_le_elem (v : list Q) (x y : Q) : y ∈ v -> (fold_left Qmin v x <= y)%Q.
Proof.
  revert x. induction v as [|z v IH]; intros x Hy; simpl.
  - by apply elem_of_nil in Hy.
  - apply elem_of_cons in Hy as [->|Hy]; [|by apply IH].
    eapply Qle_trans; [apply fold_min_le_init|apply Q.le_min_r].
Qed.

Lemma fold_max_ge_init (v : list Q) (x : Q) : (x <= fold_left Qmax v x)%Q.
Proof.
  revert x. induction v as [|y v IH]; intros x; simpl; [apply Qle_refl|].
  eapply Qle_trans; [apply Q.le_max_l|apply IH].
Qed.

Lemma fold_max_ge_elem (v : list Q) (x y : Q) : y ∈ v -> (y <= fold_left Qmax v x)%Q.
Proof.
  revert x. induction v as [|z v IH]; intros x Hy; simpl.
  - by apply elem_of_nil in Hy.
  - apply elem_of_cons in Hy as [->|Hy]; [|by apply IH].
    eapply Qle_trans; [apply Q.le_max_r|apply fold_max_ge_init].
Qed.

Lemma fold_min_ge (v : list Q) (x c : Q) :
  (c <= x)%Q -> (forall y, y ∈ v -> (c <= y)%Q) -> (c <= fold_left Qmin v x)%Q.
Proof.
  revert x. induction v as [|z v IH]; intros x Hx Hv; simpl; [done|].
  apply IH.
  - apply Q.min_glb; [done|]. apply Hv. by left.
  - intros y Hy. apply Hv. by right.
Qed.

Lemma np_min_spec (v : list Q) :
  v <> [] -> exists lo, np_min v = Ok lo /\ (forall x, x ∈ v -> (lo <= x)%Q) /\
    (forall c, (forall x, x ∈ v -> (c <= x)%Q) -> (c <= lo)%Q).
Proof.
  destruct v as [|x v]; [done|]. intros _. eexists. split; [done|]. split.
  - intros y [->|Hy]%elem_of_cons; [apply fold_min_le_init|by apply fold_min_le_elem].
  - intros c Hc. apply fold_min_ge.
    + apply Hc. by left.
    + intros y Hy. apply Hc. by right.
Qed.

Lemma np_max_spec (v : list Q) :
  v <> [] -> exists hi, np_max v = Ok hi /\ (forall x, x ∈ v -> (x <= hi)%Q).
Proof.
  destruct v as [|x v]; [done|]. intros _. eexists. split; [done|].
  intros y [->|Hy]%elem_of_cons; [apply fold_max_ge_init|by apply fold_max_ge_elem].
Qed.

Section Normalisation.
Context (rnd : Q -> Q) `{!Rounding rnd}.

Lemma rnd_proper (x y : Q) : x == y -> rnd x == rnd y.
Proof.
  intros H. apply Qle_antisym; apply rnd_mono; rewrite H; apply Qle_refl.
Qed.

Lemma rnd_nonneg (x : Q) : (0 <= x)%Q -> (0 <= rnd x)%Q.
Proof. intros H. rewrite <- rnd_0. by apply rnd_mono. Qed.

Lemma rnd_le_1 (x : Q) : (x <= 1)%Q -> (rnd x <= 1)%Q.
Proof. intros H. rewrite <- rnd_1. by apply rnd_mono. Qed.

Lemma denominator_bounds (d : Q) :
  (0 <= d)%Q ->
  (0 < fadd rnd (rnd d) (rnd (1 # 1000000)))%Q /\
  (rnd d <= fadd rnd (rnd d) (rnd (1 # 1000000)))%Q.
Proof.
  intros Hd. pose proof rnd_epsilon as He. pose proof (rnd_nonneg d Hd) as Hd'.
  unfold fadd. split.
  - apply Qlt_le_trans with (rnd (1 # 1000000)); [done|].
    rewrite <- (rnd_idem (1 # 1000000)) at 1. apply rnd_mono.
    rewrite <- (Qplus_0_l (rnd (1 # 1000000))) at 1. by apply Qplus_le_l.
  - rewrite <- (rnd_idem d) at 1. apply rnd_mono.
    rewrite <- (Qplus_0_r (rnd d)) at 1. apply Qplus_le_r. by apply Qlt_le_weak.
Qed.

Lemma normalized_bounds (lo hi x : Q) :
  (lo <= x)%Q -> (x <= hi)%Q ->
  let y := fdiv rnd (fsub rnd x lo) (fadd rnd (fsub rnd hi lo) (rnd (1 # 1000000))) in
  (0 <= y)%Q /\ (y <= 1)%Q.
Proof.
  intros Hlo Hhi.
  assert (0 <= x - lo)%Q as Hn.
  { rewrite <- (Qplus_opp_r lo). by apply Qplus_le_l. }
  assert (0 <= hi - lo)%Q as Hd.
  { apply Qle_trans with (x - lo)%Q; [done|]. by apply Qplus_le_l. }
  destruct (denominator_bounds (hi - lo) Hd) as [Hpos Hle].
  pose proof (rnd_nonneg _ Hn) as Hn'.
  assert (rnd (x - lo) <= rnd (hi - lo))%Q as Hnd.
  { apply rnd_mono. by apply Qplus_le_l. }
  unfold fdiv, fsub in *. simpl. split.
  - apply rnd_nonneg. apply Qle_shift_div_l; [done|]. by rewrite Qmult_0_l.
  - apply rnd_le_1. apply Qle_shift_div_r; [done|]. rewrite Qmult_1_l.
    by apply Qle_trans with (rnd (hi - lo)).
Qed.

Lemma normalized_zero (lo d : Q) (x : Q) :
  x == lo -> fdiv rnd (fsub rnd x lo) d == 0.
Proof.
  intros Hx. unfold fdiv, fsub.
  assert (rnd (x - lo) == 0) as Hn.
  { rewrite <- rnd_0. apply rnd_proper. rewrite Hx. ring. }
  rewrite <- rnd_0. apply rnd_proper. rewrite Hn. unfold Qdiv. apply Qmult_0_l.
Qed.

(** C7.  On every non-empty score vector the normalisation
    [(x - min) / (max - min + 1e-6)], computed in floats under any rounding
    of class [Rounding], returns a vector of the same length whose values
    all lie in [0, 1]; when all raw scores are equal, every normalised
    score is 0. *)
Theorem min_max_normalize_bounds (v : list Q) :
  v <> [] ->
  exists v', min_max_normalize rnd v = Ok v' /\ length v' = length v /\
    Forall (fun y => 0 <= y /\ y <= 1)%Q v' /\
    ((forall x y, x ∈ v -> y ∈ v -> x == y) -> Forall (fun y => y == 0) v').
Proof.
  intros Hv.
  destruct (np_min_spec v Hv) as (lo & Elo & Hlo & Hglb).
  destruct (np_max_spec v Hv) as (hi & Ehi & Hhi).
  unfold min_max_normalize. rewrite Elo, Ehi. simpl.
  eexists. split; [done|]. split; [by rewrite length_map|]. split.
  - apply Forall_fmap, Forall_forall. intros x Hx.
    apply (normalized_bounds lo hi x); auto.
  - intros Heq. apply Forall_fmap, Forall_forall. intros x Hx. simpl.
    apply normalized_zero.
    apply Qle_antisym; [|by apply Hlo].
    apply Hglb. intros y Hy. rewrite (Heq x y Hx Hy). apply Qle_refl.
Qed.

End Normalisation.

Lemma min_max_normalize_bounds_witness :
  [1 # 2; 1; 0]%Q <> [] /\
  exists v', min_max_normalize round64 [1 # 2; 1; 0]%Q = Ok v' /\
    length v' = length [1 # 2; 1; 0]%Q /\
    Forall (fun y => 0 <= y /\ y <= 1)%Q v' /\
    ((forall x y, x ∈ [1 # 2; 1; 0]%Q -> y ∈ [1 # 2; 1; 0]%Q -> x == y) ->
     Forall (fun y => y == 0) v').
Proof.
  assert ([1 # 2; 1; 0]%Q <> []) as H by discriminate.
  split; [exact H|].
  exact (min_max_normalize_bounds round64 [1 # 2; 1; 0]%Q H).
Defined.

Lemma min_max_normalize_constant :
  min_max_normalize round64 [3; 3; 3]%Q ≫= (fun v => Ok (map Qred v)) = Ok [0; 0; 0]%Q.
Proof. vm_compute. reflexivity. Qed.

(** * Built models *)

Lemma id_mapping_fold_is_Some (l : list string) (k : nat) (m : gmap string nat) (nm : string) :
  is_Some (m !! nm) \/ nm ∈ l ->
  is_Some (fold_left (fun m p => <[p.2 := p.1]> m) (zip (seq k (length l)) l) m !! nm).
Proof.
  revert k m. induction l as [|x l IH]; intros k m H; simpl.
  - destruct H as [H|H]; [done|]. by apply elem_of_nil in H.
  - apply IH. destruct (decide (x = nm)) as [->|Hne].
    + left. rewrite lookup_insert_eq. by eexists.
    + destruct H as [H|H].
      * left. by rewrite lookup_insert_ne.
      * apply elem_of_cons in H as [->|H]; [done|by right].
Qed.

Lemma id_mapping_is_Some (names : list string) (nm : string) :
  nm ∈ names -> is_Some (id_mapping names !! nm).
Proof. intros H. apply id_mapping_fold_is_Some. by right. Qed.

Lemma id_mapping_None (names : list string) (nm : string) :
  nm ∉ names -> id_mapping names !! nm = None.
Proof.
  intros H. destruct (id_mapping names !! nm) as [i|] eqn:E; [|done].
  apply id_mapping_lookup in E. destruct H. by eapply list_elem_of_lookup_2.
Qed.

Lemma text_data_loop (ps : list Publication) (self : Recommender)
    (rs : list Researcher) (acc : list string) :
  publications self = Some ps ->
  for_each rs (fun researcher text_data =>
    ps ← not_none TypeError (publications self);
    Ok (text_data ++ [profile_text ps researcher])) acc
  = Ok (acc ++ map (profile_text ps) rs).
Proof.
  intros ->. revert acc. induction rs as [|r rs IH]; intros acc; simpl.
  - by rewrite app_nil_r.
  - rewrite IH. by rewrite <- app_assoc.
Qed.

Lemma text_data_spec (self : Recommender) (rs : list Researcher) (ps : list Publication) :
  researchers self = Some rs -> publications self = Some ps ->
  text_data self = Ok (map (profile_text ps) rs).
Proof.
  intros Hrs Hps. unfold text_data. rewrite Hrs.
  exact (text_data_loop ps self rs [] Hps).
Qed.

Lemma count_vectorizer_length (texts : list string) (counts : list (list nat)) :
  count_vectorizer texts = Ok counts -> length counts = length texts.
Proof.
  unfold count_vectorizer. destruct (vocabulary _); [done|].
  intros [= <-]. by rewrite !length_map.
Qed.

Lemma build_models_built (tfidf_transform : list (list nat) -> list (list Q))
    (rs : list Researcher) (ps : list Publication) (self : Recommender) :
  build_models tfidf_transform rs ps = Ok self -> built_from tfidf_transform rs ps self.
Proof.
  unfold build_models.
  destruct (build_coauthor_matrix_spec init rs ps) as (M & -> & HM & W). simpl.
  unfold build_content_profiles.
  erewrite text_data_spec by done. simpl. unfold fit_transform.
  destruct (count_vectorizer (map (profile_text ps) rs)) as [e|counts] eqn:E; [done|].
  simpl. intros [= <-]. split; simpl; eauto.
Qed.

(** ** Sorting and slicing *)

#[global] Instance score_le_total : Total (fun p q : nat * Q => (p.2 <= q.2)%Q).
Proof.
  intros p q. destruct (Qlt_le_dec q.2 p.2) as [H|H]; [right|left]; [|done].
  by apply Qlt_le_weak.
Qed.

Lemma argsort_Permutation (v : list Q) : argsort v ≡ₚ seq 0 (length v).
Proof.
  unfold argsort, enumerate.
  rewrite merge_sort_Permutation.
  rewrite fst_zip; [done|]. by rewrite length_seq.
Qed.

Lemma argsort_length (v : list Q) : length (argsort v) = length v.
Proof. by rewrite argsort_Permutation, length_seq. Qed.

Lemma argsort_lt (v : list Q) : Forall (fun i => i < length v) (argsort v).
Proof.
  rewrite argsort_Permutation. apply Forall_seq. intros; lia.
Qed.

Lemma slice_Forall {A : Type} (P : A -> Prop) (l : list A) (start stop : Z) :
  Forall P l -> Forall P (slice l start stop).
Proof. intros H. unfold slice. by apply Forall_take, Forall_drop. Qed.

Lemma slice_top_length {A : Type} (l : list A) (top_n : Z) :
  (0 <= top_n)%Z ->
  length (slice l (- top_n - 1) (-1)) = Nat.min (Z.to_nat top_n) (length l - 1).
Proof.
  intros Hn. unfold slice, slice_bound. rewrite length_take, length_drop.
  destruct (- top_n - 1 <? 0)%Z eqn:E1; [|apply Z.ltb_ge in E1; lia].
  destruct (-1 <? 0)%Z eqn:E2; [|apply Z.ltb_ge in E2; lia].
  lia.
Qed.

Lemma argsort_NoDup (v : list Q) : NoDup (argsort v).
Proof. rewrite argsort_Permutation. apply NoDup_seq. Qed.

Lemma slice_NoDup {A : Type} (l : list A) (start stop : Z) : NoDup l -> NoDup (slice l start stop).
Proof.
  intros H. unfold slice.
  eapply sublist_NoDup; [|apply sublist_take].
  eapply sublist_NoDup; [done|apply sublist_drop].
Qed.

Lemma length_filter_ne (x : nat) (l : list nat) :
  NoDup l ->
  length (filter (fun i => i ≠ x) l) + (if decide (x ∈ l) then 1 else 0) = length l.
Proof.
  induction 1 as [|y l Hy Hl IH]; [done|].
  rewrite filter_cons. destruct (decide (y ≠ x)) as [Hne|Heq].
  - simpl. rewrite <- IH.
    destruct (decide (x ∈ l)) as [Hin|Hnin].
    + rewrite decide_True by (by right). done.
    + rewrite decide_False; [done|].
      intros [->|?]%elem_of_cons; [by apply Hne|done].
  - apply dec_stable in Heq as ->.
    rewrite decide_True by (by left).
    rewrite decide_False in IH by done. simpl. lia.
Qed.

(** ** Order of the sorted indices *)

#[global] Instance score_le_trans : Transitive (fun p q : nat * Q => (p.2 <= q.2)%Q).
Proof. intros p q r. apply Qle_trans. Qed.

Lemma StronglySorted_impl {A : Type} (R R' : relation A) (l : list A) :
  (forall x y, x ∈ l -> y ∈ l -> R x y -> R' x y) ->
  StronglySorted R l -> StronglySorted R' l.
Proof.
  intros H HS. induction HS as [|x l _ IH Hx]; constructor.
  - apply IH. intros y z Hy Hz. apply H; by right.
  - apply Forall_forall. intros y Hy. apply H; [by left|by right|].
    by eapply Forall_forall in Hx.
Qed.

Lemma StronglySorted_sublist {A : Type} (R : relation A) (l1 l2 : list A) :
  l1 `sublist_of` l2 -> StronglySorted R l2 -> StronglySorted R l1.
Proof.
  induction 1 as [|x l1 l2 Hsub IH|x l1 l2 Hsub IH]; intros HS.
  - constructor.
  - apply StronglySorted_inv in HS as [HS Hx]. constructor; [by apply IH|].
    apply Forall_forall. intros y Hy. eapply Forall_forall in Hx; [exact Hx|].
    by eapply elem_of_sublist.
  - apply StronglySorted_inv in HS as [HS _]. by apply IH.
Qed.

Lemma StronglySorted_snoc {A : Type} (R : relation A) (l : list A) (x : A) :
  StronglySorted R l -> Forall (fun y => R y x) l -> StronglySorted R (l ++ [x]).
Proof.
  induction 1 as [|y l HS IH Hy]; intros Hx; simpl.
  - repeat constructor.
  - apply Forall_cons in Hx as [Hyx Hx]. constructor; [by apply IH|].
    apply Forall_app. split; [done|by constructor].
Qed.

Lemma StronglySorted_reverse {A : Type} (R : relation A) (l : list A) :
  StronglySorted R l -> StronglySorted (flip R) (reverse l).
Proof.
  induction 1 as [|x l _ IH Hx]; [constructor|].
  rewrite reverse_cons. apply StronglySorted_snoc; [done|].
  by apply Forall_reverse.
Qed.

Lemma enumerate_lookup {A : Type} (l : list A) (i : nat) (x : A) :
  (i, x) ∈ enumerate l -> l !! i = Some x.
Proof.
  unfold enumerate. intros (k & Hk)%list_elem_of_lookup_1.
  apply lookup_zip_with_Some in Hk as (j & y & [= -> ->] & Hj & Hy).
  apply lookup_seq in Hj as [-> _]. done.
Qed.

Lemma argsort_ascending (v : list Q) :
  StronglySorted (fun i j => (value_at v i <= value_at v j)%Q) (argsort v).
Proof.
  unfold argsort.
  apply (StronglySorted_fmap fst
           (fun p q : nat * Q => (value_at v p.1 <= value_at v q.1)%Q)); [done|].
  eapply StronglySorted_impl; [|apply StronglySorted_merge_sort; apply _].
  intros [i x] [j y] Hi Hj. rewrite merge_sort_Permutation in Hi, Hj.
  apply enumerate_lookup in Hi, Hj. unfold value_at. simpl. by rewrite Hi, Hj.
Qed.

Lemma top_indices_descending (v : list Q) (researcher_idx : nat) (start stop : Z) :
  StronglySorted (fun i j => (value_at v j <= value_at v i)%Q)
    (filter (fun i => i ≠ researcher_idx) (reverse (slice (argsort v) start stop))).
Proof.
  eapply StronglySorted_sublist; [apply sublist_filter; apply _|].
  apply (StronglySorted_reverse (fun i j => (value_at v i <= value_at v j)%Q)).
  eapply StronglySorted_sublist; [|apply argsort_ascending].
  unfold slice. etrans; [apply sublist_take|apply sublist_drop].
Qed.

Lemma recs_descending (rs : list Researcher) (combined : list Q)
    (picked : list nat) (recs : list Recommendation) :
  Forall2 (rec_at rs combined) picked recs ->
  StronglySorted (fun i j => (value_at combined j <= value_at combined i)%Q) picked ->
  StronglySorted (fun r1 r2 => (score r2 <= score r1)%Q) recs.
Proof.
  induction 1 as [|i rec picked recs [_ Hi] HF IH]; intros HS; [constructor|].
  apply StronglySorted_inv in HS as [HS Hall]. constructor; [by apply IH|].
  clear IH HS. induction HF as [|j rec' picked recs [_ Hj] _ IH]; [constructor|].
  apply Forall_cons in Hall as [Hij Hall]. constructor; [|by apply IH].
  unfold value_at in Hij. by rewrite Hi, Hj in Hij.
Qed.

(** ** [recommend_collaborators] on a built model *)

Lemma filtering_loop (rs : list Researcher) (combined : list Q) (researcher_idx : nat)
    (body : nat -> list Recommendation -> Exc (list Recommendation))
    (l : list nat) (acc : list Recommendation) :
  (forall acc, body researcher_idx acc = Ok acc) ->
  (forall i acc, i ≠ researcher_idx -> i < length rs -> i < length combined ->
     exists rec, rec_at rs combined i rec /\ body i acc = Ok (acc ++ [rec])) ->
  Forall (fun i => i < length rs /\ i < length combined) l ->
  exists recs, for_each l body acc = Ok (acc ++ recs) /\
    Forall2 (rec_at rs combined) (filter (fun i => i ≠ researcher_idx) l) recs.
Proof.
  intros Hskip Hkeep. revert acc. induction l as [|i l IH]; intros acc Hl.
  - exists []. simpl. split; [by rewrite app_nil_r|constructor].
  - apply Forall_cons in Hl as [[Hi1 Hi2] Hl].
    rewrite filter_cons. cbn [for_each].
    destruct (decide (i ≠ researcher_idx)) as [Hne|Heq].
    + destruct (Hkeep i acc Hne Hi1 Hi2) as (rec & Hrec & ->).
      destruct (IH (acc ++ [rec]) Hl) as (recs & E & HF).
      exists (rec :: recs). split; [|by constructor].
      cbn [mbind Exc_bind]. by rewrite E, <- app_assoc.
    + apply dec_stable in Heq as ->. rewrite Hskip. apply IH, Hl.
Qed.

Lemma recommend_loop (self : Recommender) (rs : list Researcher) (combined : list Q)
    (researcher_idx : nat) (l : list nat) (acc : list Recommendation) :
  researchers self = Some rs ->
  Forall (fun i => i < length rs /\ i < length combined) l ->
  exists recs,
    for_each l (fun idx recommendations =>
      if decide (idx ≠ researcher_idx) then
        rs ← not_none AttributeError (researchers self);
        rec ← list_get rs idx;
        s ← list_get combined idx;
        Ok (recommendations ++ [{| rec_row := rec; score := s |}])
      else Ok recommendations) acc = Ok (acc ++ recs) /\
    Forall2 (rec_at rs combined) (filter (fun i => i ≠ researcher_idx) l) recs.
Proof.
  intros Hrs. apply filtering_loop.
  - intros acc'. by rewrite decide_False by (intros H; by apply H).
  - intros i acc' Hne Hi1 Hi2. rewrite decide_True by done. rewrite Hrs.
    destruct (lookup_lt_is_Some_2 rs i Hi1) as [r Hr].
    destruct (lookup_lt_is_Some_2 combined i Hi2) as [s Hs].
    exists {| rec_row := r; score := s |}. split; [by split|].
    simpl. unfold list_get. rewrite Hr. simpl. by rewrite Hs.
Qed.

Lemma min_max_normalize_ok (rnd : Q -> Q) (v : list Q) :
  v <> [] -> exists v', min_max_normalize rnd v = Ok v' /\ length v' = length v.
Proof.
  destruct v as [|x v]; [done|]. intros _.
  eexists. split; [reflexivity|]. by rewrite length_map.
Qed.

Lemma nonempty_length {A : Type} (l : list A) : 0 < length l -> l <> [].
Proof. destruct l; simpl; [lia|done]. Qed.

Section RecommendSpec.
Variable rnd : Q -> Q.
Variable tfidf_transform : list (list nat) -> list (list Q).
Variable cosine_similarity : list Q -> list (list Q) -> list Q.
Hypothesis tfidf_rows : forall counts, length (tfidf_transform counts) = length counts.
Hypothesis cosine_length : forall x Y, length (cosine_similarity x Y) = length Y.

Lemma combined_scores_spec (rs : list Researcher) (ps : list Publication)
    (self : Recommender) (researcher_idx : nat) :
  built_from tfidf_transform rs ps self ->
  researcher_idx < length rs ->
  exists combined,
    combined_scores rnd cosine_similarity self researcher_idx = Ok combined /\
    length combined = length rs.
Proof.
  intros [Hrs Hps Hids (M & HM & [HMlen HMrows] & _) (counts & Hcounts & HT)] Hlt.
  apply count_vectorizer_length in Hcounts. rewrite length_map in Hcounts.
  unfold combined_scores. rewrite HT, HM. simpl.
  destruct (lookup_lt_is_Some_2 (tfidf_transform counts) researcher_idx) as [x Hx].
  { rewrite tfidf_rows. lia. }
  destruct (lookup_lt_is_Some_2 M researcher_idx) as [row Hrow]; [lia|].
  assert (length row = length rs) as Hrowlen.
  { eapply Forall_lookup_1 in HMrows; eauto. }
  assert (list_get (tfidf_transform counts) researcher_idx = Ok x) as ->
    by (unfold list_get; by rewrite Hx).
  assert (list_get M researcher_idx = Ok row) as ->
    by (unfold list_get; by rewrite Hrow).
  simpl.
  destruct (min_max_normalize_ok rnd (cosine_similarity x (tfidf_transform counts)))
    as (c1 & -> & Hc1).
  { apply nonempty_length. rewrite cosine_length, tfidf_rows. lia. }
  destruct (min_max_normalize_ok rnd (map inject_Z row)) as (c2 & -> & Hc2).
  { apply nonempty_length. rewrite length_map. lia. }
  simpl. rewrite cosine_length, tfidf_rows in Hc1. rewrite length_map in Hc2.
  unfold np_add. rewrite decide_True by (rewrite !length_map; lia).
  eexists. split; [done|].
  rewrite length_zip_with, !length_map. lia.
Qed.

Lemma recommend_spec (rs : list Researcher) (ps : list Publication) (self : Recommender)
    (researcher_name : string) (researcher_idx : nat) (top_n : Z) :
  built_from tfidf_transform rs ps self ->
  researcher_ids self !! researcher_name = Some researcher_idx ->
  exists combined recs,
    combined_scores rnd cosine_similarity self researcher_idx = Ok combined /\
    length combined = length rs /\
    recommend_collaborators rnd cosine_similarity self researcher_name top_n = Ok recs /\
    Forall2 (rec_at rs combined)
      (filter (fun i => i ≠ researcher_idx)
         (reverse (slice (argsort combined) (- top_n - 1) (-1)))) recs.
Proof.
  intros Hbuilt Hidx.
  assert (researcher_idx < length rs) as Hlt.
  { rewrite (built_ids _ _ _ _ Hbuilt) in Hidx.
    apply id_mapping_lt in Hidx. by rewrite length_map in Hidx. }
  destruct (combined_scores_spec rs ps self researcher_idx Hbuilt Hlt)
    as (combined & Hc & Hcomb).
  unfold recommend_collaborators. rewrite Hidx, Hc. simpl.
  destruct (recommend_loop self rs combined researcher_idx
              (reverse (slice (argsort combined) (- top_n - 1) (-1))) []
              (built_researchers _ _ _ _ Hbuilt))
    as (recs & E & HF).
  { apply Forall_reverse, slice_Forall.
    eapply Forall_impl; [apply argsort_lt|]. simpl. intros i Hi. lia. }
  exists combined, recs. split; [done|]. split; [done|]. split; [exact E|done].
Qed.

(** C2.  On a built model, for a name of the researcher table and any
    [top_n], [recommend_collaborators] returns a list; its records are
    the rows at indices [picked], none of which is the query researcher's
    index.  When the names of the table are pairwise distinct, no returned
    record carries the query name. *)
Theorem recommend_excludes_query (rs : list Researcher) (ps : list Publication)
    (self : Recommender) (researcher_name : string) (top_n : Z) :
  build_models tfidf_transform rs ps = Ok self ->
  researcher_name ∈ map name rs ->
  exists researcher_idx picked recs,
    researcher_ids self !! researcher_name = Some researcher_idx /\
    recommend_collaborators rnd cosine_similarity self researcher_name top_n = Ok recs /\
    Forall2 (fun i rec => rs !! i = Some (rec_row rec)) picked recs /\
    (researcher_idx ∉ picked) /\
    (NoDup (map name rs) -> Forall (fun rec => name (rec_row rec) ≠ researcher_name) recs).
Proof.
  intros Hbuild Hin. apply build_models_built in Hbuild as Hbuilt.
  pose proof (built_ids _ _ _ _ Hbuilt) as Hids.
  destruct (id_mapping_is_Some _ _ Hin) as [idx Hidx]. rewrite <- Hids in Hidx.
  destruct (recommend_spec rs ps self researcher_name idx top_n Hbuilt Hidx)
    as (combined & recs & _ & _ & E & HF).
  exists idx, (filter (fun i => i ≠ idx)
                 (reverse (slice (argsort combined) (- top_n - 1) (-1)))), recs.
  split; [done|]. split; [done|]. split; [|split].
  - eapply Forall2_impl; [exact HF|]. by intros i rec [H _].
  - intros [Hne _]%list_elem_of_filter. by apply Hne.
  - intros Hnodup. eapply Forall2_Forall_r; [exact HF|].
    apply Forall_forall. intros i [Hne _]%list_elem_of_filter rec [Hrow _] Hname.
    apply Hne. rewrite Hids in Hidx. apply id_mapping_lookup in Hidx.
    eapply NoDup_lookup; [exact Hnodup| |exact Hidx].
    rewrite list_lookup_fmap, Hrow. simpl. by rewrite Hname.
Qed.

(** X14.  The list returned is in descending order of score, whatever
    window it was taken from. *)
Lemma recommend_sorted_descending (rs : list Researcher) (ps : list Publication)
    (self : Recommender) (researcher_name : string) (top_n : Z) :
  build_models tfidf_transform rs ps = Ok self ->
  researcher_name ∈ map name rs ->
  exists recs,
    recommend_collaborators rnd cosine_similarity self researcher_name top_n = Ok recs /\
    StronglySorted (fun r1 r2 => (score r2 <= score r1)%Q) recs.
Proof.
  intros Hbuild Hin. apply build_models_built in Hbuild as Hbuilt.
  destruct (id_mapping_is_Some _ _ Hin) as [idx Hidx].
  rewrite <- (built_ids _ _ _ _ Hbuilt) in Hidx.
  destruct (recommend_spec rs ps self researcher_name idx top_n Hbuilt Hidx)
    as (combined & recs & _ & _ & E & HF).
  exists recs. split; [done|].
  eapply recs_descending; [exact HF|apply top_indices_descending].
Qed.

Lemma recommend_length (rs : list Researcher) (ps : list Publication)
    (self : Recommender) (researcher_name : string) (top_n : Z) :
  build_models tfidf_transform rs ps = Ok self ->
  researcher_name ∈ map name rs ->
  (0 < top_n)%Z ->
  exists researcher_idx combined recs,
    researcher_ids self !! researcher_name = Some researcher_idx /\
    combined_scores rnd cosine_similarity self researcher_idx = Ok combined /\
    recommend_collaborators rnd cosine_similarity self researcher_name top_n = Ok recs /\
    (Z.of_nat (length recs) <= top_n)%Z /\
    let window := slice (argsort combined) (- top_n - 1) (-1) in
    length window = Nat.min (Z.to_nat top_n) (length rs - 1) /\
    length recs + (if decide (researcher_idx ∈ window) then 1 else 0) = length window.
Proof.
  intros Hbuild Hin Hpos. apply build_models_built in Hbuild as Hbuilt.
  destruct (id_mapping_is_Some _ _ Hin) as [idx Hidx].
  rewrite <- (built_ids _ _ _ _ Hbuilt) in Hidx.
  destruct (recommend_spec rs ps self researcher_name idx top_n Hbuilt Hidx)
    as (combined & recs & Hc & Hlen & E & HF).
  exists idx, combined, recs. split; [done|]. split; [done|]. split; [done|].
  apply Forall2_length in HF.
  pose proof (slice_top_length (argsort combined) top_n ltac:(lia)) as Hw.
  rewrite argsort_length, Hlen in Hw.
  pose proof (length_filter_ne idx (reverse (slice (argsort combined) (- top_n - 1) (-1)))) as Hf.
  rewrite length_reverse in Hf.
  assert (NoDup (reverse (slice (argsort combined) (- top_n - 1) (-1)))) as Hnd.
  { rewrite reverse_Permutation. apply slice_NoDup, argsort_NoDup. }
  specialize (Hf Hnd). rewrite HF in Hf. simpl.
  split; [|split; [done|]].
  - lia.
  - rewrite <- Hf. repeat case_decide; try done.
    + exfalso. by rewrite elem_of_reverse in *.
    + exfalso. by rewrite elem_of_reverse in *.
Qed.

End RecommendSpec.

(** ** The instances fit the two shape assumptions *)

Lemma tf_l2_rows (counts : list (list nat)) : length (tf_l2 counts) = length counts.
Proof. unfold tf_l2. apply length_map. Qed.

Lemma cosine_rational_length (x : list Q) (Y : list (list Q)) :
  length (cosine_rational x Y) = length Y.
Proof. unfold cosine_rational. apply length_map. Qed.

(** ** The twin model *)

Lemma twin_model_built :
  build_models tf_l2 twin_researchers twin_publications = Ok twin_model.
Proof. vm_compute. reflexivity. Qed.

Lemma twin_model_tables :
  map (profile_text twin_publications) twin_researchers
    = ["Genetics Genetics"; "Genetics Genetics"; "Quantum "] /\
  coauthor_matrix twin_model = Some [[0; 1; 0]; [1; 0; 0]; [0; 0; 0]]%Z /\
  (tfidf_matrix twin_model ≫= fun M => Some (map (map Qred) M))
    = Some [[1; 0]; [1; 0]; [0; 1]]%Q.
Proof. repeat split; vm_compute; reflexivity. Qed.

Lemma alice_in_twin_researchers : "Alice" ∈ map name twin_researchers.
Proof. apply (bool_decide_unpack _). vm_compute. exact I. Defined.

Lemma dave_not_in_twin_researchers : "Dave" ∉ map name twin_researchers.
Proof. apply (bool_decide_unpack _). vm_compute. exact I. Defined.

Lemma recommend_excludes_query_witness :
  exists researcher_idx picked recs,
    researcher_ids twin_model !! "Alice" = Some researcher_idx /\
    recommend_collaborators round64 cosine_rational twin_model "Alice" 2 = Ok recs /\
    Forall2 (fun i rec => twin_researchers !! i = Some (rec_row rec)) picked recs /\
    (researcher_idx ∉ picked) /\
    (NoDup (map name twin_researchers) ->
     Forall (fun rec => name (rec_row rec) ≠ "Alice") recs).
Proof.
  exact (recommend_excludes_query round64 tf_l2 cosine_rational tf_l2_rows cosine_rational_length
           twin_researchers twin_publications twin_model "Alice" 2
           twin_model_built alice_in_twin_researchers).
Defined.

(** * Unknown names *)

Lemma prefix_append (p s : string) : String.prefix p (p +:+ s) = true.
Proof.
  induction p as [|c p IH].
  - by destruct s.
  - change (String c p +:+ s) with (String c (p +:+ s)). cbn [String.prefix].
    destruct (ascii_dec c c); [exact IH|done].
Qed.

Lemma is_substring_prefix (p s : string) : is_substring p (p +:+ s) = true.
Proof.
  pose proof (prefix_append p s) as H.
  destruct (p +:+ s); cbn [is_substring]; by rewrite H.
Qed.

Lemma is_substring_middle (a p s : string) : is_substring p (a +:+ p +:+ s) = true.
Proof.
  induction a as [|c a IH]; [exact (is_substring_prefix p s)|].
  change (String c a +:+ p +:+ s) with (String c (a +:+ p +:+ s)).
  cbn [is_substring]. rewrite IH. apply orb_true_r.
Qed.

(** C9.  On a built model, a name that is not in the researcher table
    makes [recommend_collaborators] raise a ValueError, whatever [top_n];
    the message is "Researcher <name> not found in database" and so
    contains the name searched for.  No list is returned. *)
Theorem recommend_unknown_name_raises (rnd : Q -> Q)
    (tfidf_transform : list (list nat) -> list (list Q))
    (cosine_similarity : list Q -> list (list Q) -> list Q)
    (rs : list Researcher) (ps : list Publication) (self : Recommender)
    (researcher_name : string) (top_n : Z) :
  build_models tfidf_transform rs ps = Ok self ->
  researcher_name ∉ map name rs ->
  recommend_collaborators rnd cosine_similarity self researcher_name top_n
    = Raise (ValueError (not_found_message researcher_name)) /\
  is_substring researcher_name (not_found_message researcher_name) = true /\
  (forall recs,
     recommend_collaborators rnd cosine_similarity self researcher_name top_n <> Ok recs).
Proof.
  intros Hbuild Hnot. apply build_models_built in Hbuild as Hbuilt.
  assert (recommend_collaborators rnd cosine_similarity self researcher_name top_n
          = Raise (ValueError (not_found_message researcher_name))) as E.
  { unfold recommend_collaborators.
    by rewrite (built_ids _ _ _ _ Hbuilt), (id_mapping_None _ _ Hnot). }
  split; [exact E|]. split.
  - apply is_substring_middle.
  - intros recs. by rewrite E.
Qed.

Lemma recommend_unknown_name_raises_witness :
  recommend_collaborators round64 cosine_rational twin_model "Dave" 5
    = Raise (ValueError "Researcher Dave not found in database") /\
  is_substring "Dave" (not_found_message "Dave") = true /\
  (forall recs, recommend_collaborators round64 cosine_rational twin_model "Dave" 5 <> Ok recs).
Proof.
  exact (recommend_unknown_name_raises round64 tf_l2 cosine_rational
           twin_researchers twin_publications twin_model "Dave" 5
           twin_model_built dave_not_in_twin_researchers).
Defined.

(** * The size of the returned list *)

Lemma recommend_can_return_fewer :
  build_models tf_l2 twin_researchers twin_publications = Ok twin_model /\
  "Alice" ∈ map name twin_researchers /\
  (1 < Z.of_nat (length (filter (fun r => name r ≠ "Alice") twin_researchers)))%Z /\
  recommend_collaborators round64 cosine_rational twin_model "Alice" 1 = Ok [].
Proof.
  split; [exact twin_model_built|]. split; [exact alice_in_twin_researchers|].
  split; vm_compute; reflexivity.
Qed.

(** C10.  On a built model, for a name of the researcher table and a
    positive [top_n], the list returned has at most [top_n] entries: the
    window sliced from the sorted indices has [min(top_n, n - 1)] of them,
    and the list is one shorter when the query researcher's own index is
    in the window, as nothing replaces it.  So the list can be shorter
    than [top_n] although more than [top_n] other researchers exist: with
    the twin model, the query "Alice" and [top_n = 1] the list returned is
    empty. *)
Theorem recommend_at_most_top_n :
  (forall (rnd : Q -> Q) (tfidf_transform : list (list nat) -> list (list Q))
          (cosine_similarity : list Q -> list (list Q) -> list Q)
          (rs : list Researcher) (ps : list Publication) (self : Recommender)
          (researcher_name : string) (top_n : Z),
     (forall counts, length (tfidf_transform counts) = length counts) ->
     (forall x Y, length (cosine_similarity x Y) = length Y) ->
     build_models tfidf_transform rs ps = Ok self ->
     researcher_name ∈ map name rs ->
     (0 < top_n)%Z ->
     exists researcher_idx combined recs,
       researcher_ids self !! researcher_name = Some researcher_idx /\
       combined_scores rnd cosine_similarity self researcher_idx = Ok combined /\
       recommend_collaborators rnd cosine_similarity self researcher_name top_n = Ok recs /\
       (Z.of_nat (length recs) <= top_n)%Z /\
       let window := slice (argsort combined) (- top_n - 1) (-1) in
       length window = Nat.min (Z.to_nat top_n) (length rs - 1) /\
       length recs + (if decide (researcher_idx ∈ window) then 1 else 0) = length window) /\
  (exists (rs : list Researcher) (ps : list Publication) (self : Recommender)
          (researcher_name : string) (top_n : Z) (recs : list Recommendation),
     build_models tf_l2 rs ps = Ok self /\
     researcher_name ∈ map name rs /\
     (0 < top_n)%Z /\
     (top_n < Z.of_nat (length (filter (fun r => name r ≠ researcher_name) rs)))%Z /\
     recommend_collaborators round64 cosine_rational self researcher_name top_n = Ok recs /\
     (Z.of_nat (length recs) < top_n)%Z).
Proof.
  split.
  - intros rnd tfidf_transform cosine_similarity rs ps self researcher_name top_n H1 H2.
    by apply recommend_length.
  - destruct recommend_can_return_fewer as (Hb & Hin & Hothers & E).
    exists twin_researchers, twin_publications, twin_model, "Alice", 1%Z, [].
    repeat split; try done.
Qed.

Lemma recommend_at_most_top_n_witness :
  exists researcher_idx combined recs,
    researcher_ids twin_model !! "Alice" = Some researcher_idx /\
    combined_scores round64 cosine_rational twin_model researcher_idx = Ok combined /\
    recommend_collaborators round64 cosine_rational twin_model "Alice" 2 = Ok recs /\
    (Z.of_nat (length recs) <= 2)%Z /\
    let window := slice (argsort combined) (- 2 - 1) (-1) in
    length window = Nat.min (Z.to_nat 2) (length twin_researchers - 1) /\
    length recs + (if decide (researcher_idx ∈ window) then 1 else 0) = length window.
Proof.
  exact (proj1 recommend_at_most_top_n round64 tf_l2 cosine_rational
           twin_researchers twin_publications twin_model "Alice" 2%Z
           tf_l2_rows cosine_rational_length twin_model_built
           alice_in_twin_researchers eq_refl).
Defined.

(** * Content profiles *)

(** ** Which publications a profile draws on *)

(** C3 fails on the code.  The paper's only author is Al Greenberg: the
    author resolution of [build_coauthor_matrix] splits the field on
    commas and finds that whole name alone.  [build_content_profiles]
    selects by [str.contains] all the same, "Al Green" occurs inside
    "Al Greenberg", and the paper's keyword lands in Al Green's profile
    text. *)
Lemma substring_match_credits_other_author :
  let self := load_data init [al_green; al_greenberg] [greenberg_paper] in
  resolved_authors (researcher_ids self) greenberg_paper = ["Al Greenberg"] /\
  regex_supported (name al_green) = true /\
  str_contains (name al_green) (authors greenberg_paper) = true /\
  text_data self = Ok ["Genetics Astrophysics"; "Quantum Astrophysics"].
Proof. repeat split; vm_compute; reflexivity. Qed.

(** ** When the vectorizer has a vocabulary *)






Section ContentProfiles.
Variable tfidf_transform : list (list nat) -> list (list Q).
Hypothesis tfidf_zero : forall counts,
  Forall2 (Forall2 (fun c w => c = 0 -> w == 0)) counts (tfidf_transform counts).


End ContentProfiles.




Lemma empty_profile_zero_row :
  text_data (load_data init [alice; dana] twin_publications) = Ok ["Genetics Genetics"; "C "] /\
  build_content_profiles tf_l2 (load_data init [alice; dana] twin_publications)
    ≫= (fun self => Ok (tfidf_matrix self ≫= fun M => Some (map (map Qred) M)))
  = Ok (Some [[1]; [0]]%Q).
Proof. split; vm_compute; reflexivity. Qed.


(** * Ranking *)

(** C1 fails on the code.  In the twin model Bob's profile equals Alice's
    and the two are co-authors, so for the query "Alice" Bob's combined
    score (the float 0.9999990000010001) is above Alice's own
    (0.5999994000006), and Carol's is 0.  The slice [[-top_n-1:-1]] of the ascending order drops
    the last index, which is Bob's, and keeps Alice's and Carol's; Alice
    is then filtered out.  With [top_n = 2] the list returned holds Carol
    alone, where the two best candidates are Bob and Carol. *)
Lemma recommend_misses_best_candidate :
  exists combined recs,
    build_models tf_l2 twin_researchers twin_publications = Ok twin_model /\
    combined_scores round64 cosine_rational twin_model 0 = Ok combined /\
    map Qred combined
      = [5404314148530447 # 9007199254740992; 9007190247550745 # 9007199254740992; 0]%Q /\
    argsort combined = [2; 0; 1] /\
    recommend_collaborators round64 cosine_rational twin_model "Alice" 2 = Ok recs /\
    map (fun rec => name (rec_row rec)) recs = ["Carol"] /\
    expected_ranking combined 0 2 = [1; 2].
Proof.
  eexists _, _. split; [exact twin_model_built|].
  split; [vm_compute; reflexivity|].
  split; [vm_compute; reflexivity|].
  split; [vm_compute; reflexivity|].
  split; [vm_compute; reflexivity|].
  split; vm_compute; reflexivity.
Qed.

(** * Further properties *)

(** ** The id mapping built by [load_data] *)

Lemma enumerate_snoc {A : Type} (l : list A) (x : A) :
  enumerate (l ++ [x]) = enumerate l ++ [(length l, x)].
Proof.
  unfold enumerate. rewrite length_app. simpl.
  rewrite seq_app. simpl.
  rewrite zip_with_app by (by rewrite length_seq). done.
Qed.

Lemma id_mapping_snoc (names : list string) (x : string) :
  id_mapping (names ++ [x]) = <[x := length names]> (id_mapping names).
Proof. unfold id_mapping. by rewrite enumerate_snoc, fold_left_app. Qed.

Lemma id_mapping_last (names : list string) (nm : string) (i : nat) :
  id_mapping names !! nm = Some i <->
  names !! i = Some nm /\ forall j, i < j -> names !! j <> Some nm.
Proof.
  revert i. induction names as [|x l IH] using rev_ind; intros i.
  - unfold id_mapping. simpl. rewrite lookup_empty. split; [done|].
    by intros [H _].
  - rewrite id_mapping_snoc. destruct (decide (x = nm)) as [->|Hne].
    + rewrite lookup_insert_eq. split.
      * intros [= <-]. split.
        -- rewrite lookup_app_r by lia. by rewrite Nat.sub_diag.
        -- intros j Hj. rewrite lookup_ge_None_2; [done|].
           rewrite length_app. simpl. lia.
      * intros [Hi Hlast]. f_equal.
        destruct (decide (i < length l)) as [Hlt|Hge].
        -- destruct (Hlast (length l) Hlt).
           rewrite lookup_app_r by lia. by rewrite Nat.sub_diag.
        -- apply lookup_lt_Some in Hi. rewrite length_app in Hi. simpl in Hi. lia.
    + rewrite lookup_insert_ne by done. rewrite IH. split.
      * intros [Hi Hlast]. split.
        -- rewrite lookup_app_l; [done|]. by eapply lookup_lt_Some.
        -- intros j Hj. destruct (decide (j < length l)) as [Hlt|Hge].
           ++ rewrite lookup_app_l by done. by apply Hlast.
           ++ rewrite lookup_app_r by lia.
              destruct (j - length l) as [|k] eqn:E; simpl; [congruence|].
              by rewrite lookup_nil.
      * intros [Hi Hlast].
        assert (i < length l) as Hlt.
        { apply lookup_lt_Some in Hi as Hlen. rewrite length_app in Hlen. simpl in Hlen.
          destruct (decide (i = length l)) as [->|]; [|lia].
          rewrite lookup_app_r in Hi by lia. rewrite Nat.sub_diag in Hi.
          simpl in Hi. congruence. }
        rewrite lookup_app_l in Hi by done. split; [done|].
        intros j Hj Hjl. apply (Hlast j Hj).
        rewrite lookup_app_l; [done|]. by eapply lookup_lt_Some.
Qed.

(** X1.  After [load_data], [researcher_ids] sends a name to the index of
    the last row of the researcher table that carries it: a row whose name
    is repeated further down is shadowed.  The names it knows are exactly
    the names of the table. *)
Theorem load_data_ids_last_row (self : Recommender)
    (rs : list Researcher) (ps : list Publication) (nm : string) :
  (forall i, researcher_ids (load_data self rs ps) !! nm = Some i <->
     map name rs !! i = Some nm /\ forall j, i < j -> map name rs !! j <> Some nm) /\
  (is_Some (researcher_ids (load_data self rs ps) !! nm) <-> nm ∈ map name rs).
Proof.
  split; [intros i; apply id_mapping_last|].
  simpl. split.
  - intros [i Hi]. apply id_mapping_lookup in Hi. by eapply list_elem_of_lookup_2.
  - apply id_mapping_is_Some.
Qed.

Lemma id_mapping_NoDup (names : list string) (nm : string) (i : nat) :
  NoDup names -> names !! i = Some nm -> id_mapping names !! nm = Some i.
Proof.
  intros Hnd Hi. apply id_mapping_last. split; [done|].
  intros j Hj Hjn. pose proof (NoDup_lookup _ _ _ _ Hnd Hi Hjn). lia.
Qed.

(** X2.  When the names of the researcher table are pairwise distinct,
    looking up the name of row [i] gives [i] back: every researcher can be
    queried under their own row. *)
Theorem load_data_ids_distinct_names (self : Recommender)
    (rs : list Researcher) (ps : list Publication) (i : nat) (r : Researcher) :
  NoDup (map name rs) -> rs !! i = Some r ->
  researcher_ids (load_data self rs ps) !! name r = Some i.
Proof.
  intros Hnd Hi. apply id_mapping_NoDup; [done|].
  by rewrite list_lookup_fmap, Hi.
Qed.

Lemma twin_names_NoDup : NoDup (map name twin_researchers).
Proof. apply (bool_decide_unpack _). vm_compute. exact I. Defined.

Lemma load_data_ids_distinct_names_witness :
  researcher_ids (load_data init twin_researchers twin_publications) !! name bob = Some 1.
Proof.
  exact (load_data_ids_distinct_names init twin_researchers twin_publications 1 bob
           twin_names_NoDup eq_refl).
Defined.

(** ** More on [build_coauthor_matrix] *)

Lemma square_ext (n : nat) (M M' : list (list Z)) :
  square n M -> square n M' ->
  (forall a b, entry M a b = entry M' a b) -> M = M'.
Proof.
  intros [Hlen Hrows] [Hlen' Hrows'] Hentry.
  apply list_eq. intros a.
  destruct (M !! a) as [row|] eqn:Ha; destruct (M' !! a) as [row'|] eqn:Ha'.
  - f_equal. apply list_eq. intros b.
    pose proof (Forall_lookup_1 _ _ _ _ Hrows Ha) as Hr.
    pose proof (Forall_lookup_1 _ _ _ _ Hrows' Ha') as Hr'.
    simpl in Hr, Hr'.
    specialize (Hentry a b). unfold entry in Hentry. rewrite Ha, Ha' in Hentry.
    simpl in Hentry.
    destruct (row !! b) as [x|] eqn:Hb; destruct (row' !! b) as [x'|] eqn:Hb'.
    + simpl in Hentry. by subst.
    + apply lookup_lt_Some in Hb. apply lookup_ge_None in Hb'. lia.
    + apply lookup_ge_None in Hb. apply lookup_lt_Some in Hb'. lia.
    + done.
  - apply lookup_lt_Some in Ha. apply lookup_ge_None in Ha'. lia.
  - apply lookup_ge_None in Ha. apply lookup_lt_Some in Ha'. lia.
  - done.
Qed.

Lemma total_weight_app (ids : gmap string nat) (ps1 ps2 : list Publication) (a b : nat) :
  total_weight ids (ps1 ++ ps2) a b
  = (total_weight ids ps1 a b + total_weight ids ps2 a b)%Z.
Proof. induction ps1 as [|pub ps1 IH]; simpl; [done|]. rewrite IH. lia. Qed.

Lemma total_weight_Permutation (ids : gmap string nat) (ps ps' : list Publication)
    (a b : nat) :
  ps ≡ₚ ps' -> total_weight ids ps a b = total_weight ids ps' a b.
Proof.
  induction 1 as [|pub ps ps' _ IH|p q ps|ps ps' ps'' _ IH1 _ IH2]; simpl.
  - done.
  - by rewrite IH.
  - lia.
  - by rewrite IH1.
Qed.

Lemma pair_weight_short (idxs : list nat) (a b : nat) :
  length idxs <= 1 -> pair_weight idxs a b = 0%Z.
Proof.
  intros Hlen. rewrite <- pairs_sum_closed.
  destruct idxs as [|x [|y idxs]]; simpl in *; [done..|lia].
Qed.

Lemma author_indices_length (ids : gmap string nat) (pub : Publication) :
  length (author_indices ids pub) = length (resolved_authors ids pub).
Proof. symmetry. eapply Forall2_length, author_indices_resolved. Qed.

(** The matrix stored for given tables, whatever the object held before. *)
Lemma build_coauthor_matrix_stored (self : Recommender)
    (rs : list Researcher) (ps : list Publication) :
  exists M self',
    build_coauthor_matrix (load_data self rs ps) = Ok self' /\
    coauthor_matrix self' = Some M /\ square (length rs) M /\
    forall a b, entry M a b = total_weight (id_mapping (map name rs)) ps a b.
Proof.
  destruct (build_coauthor_matrix_spec self rs ps) as (M & E & HM & W).
  by eexists M, _.
Qed.

(** X3.  The counts do not accumulate over calls: [build_coauthor_matrix]
    starts from a zero matrix each time, so calling it again on the object
    it returned gives that same object. *)
Theorem build_coauthor_matrix_twice (self self' : Recommender) :
  build_coauthor_matrix self = Ok self' ->
  build_coauthor_matrix self' = Ok self'.
Proof.
  unfold build_coauthor_matrix.
  destruct (researchers self) as [rs|] eqn:Hrs; [|done].
  destruct (publications self) as [ps|] eqn:Hps; [|done]. simpl.
  destruct (for_each ps _ _) as [e|M] eqn:E; [done|]. simpl.
  intros [= <-]. simpl. by rewrite E.
Qed.

Lemma build_coauthor_matrix_twice_witness :
  exists self',
    build_coauthor_matrix (load_data init twin_researchers twin_publications) = Ok self' /\
    build_coauthor_matrix self' = Ok self'.
Proof.
  eexists. split; [vm_compute; reflexivity|].
  apply (build_coauthor_matrix_twice (load_data init twin_researchers twin_publications)).
  vm_compute. reflexivity.
Defined.

(** X4.  The matrix does not depend on the order of the rows of the
    publication table. *)
Theorem coauthor_matrix_publication_order (self : Recommender)
    (rs : list Researcher) (ps ps' : list Publication) :
  ps ≡ₚ ps' ->
  exists M self1 self2,
    build_coauthor_matrix (load_data self rs ps) = Ok self1 /\
    build_coauthor_matrix (load_data self rs ps') = Ok self2 /\
    coauthor_matrix self1 = Some M /\ coauthor_matrix self2 = Some M.
Proof.
  intros Hperm.
  destruct (build_coauthor_matrix_stored self rs ps) as (M & self1 & E1 & C1 & HM & W).
  destruct (build_coauthor_matrix_stored self rs ps') as (M' & self2 & E2 & C2 & HM' & W').
  exists M, self1, self2. repeat split; try done.
  rewrite C2. f_equal. apply (square_ext (length rs)); [done..|].
  intros a b. rewrite W, W'. symmetry. by apply total_weight_Permutation.
Qed.

Lemma coauthor_matrix_publication_order_witness :
  let p := publication "P0000" "Alice, Bob" "Genetics" in
  let q := publication "P0001" "Bob, Carol" "Quantum" in
  exists M self1 self2,
    build_coauthor_matrix (load_data init twin_researchers [p; q]) = Ok self1 /\
    build_coauthor_matrix (load_data init twin_researchers [q; p]) = Ok self2 /\
    coauthor_matrix self1 = Some M /\ coauthor_matrix self2 = Some M.
Proof.
  exact (coauthor_matrix_publication_order init twin_researchers _ _
           (Permutation_swap (publication "P0001" "Bob, Carol" "Quantum")
              (publication "P0000" "Alice, Bob" "Genetics") [])).
Defined.

(** X5.  The counts add up over the publication table: the weights built
    from two tables put one after the other are the sums of the weights
    built from each. *)
Theorem coauthor_matrix_additive (self : Recommender)
    (rs : list Researcher) (ps1 ps2 : list Publication) :
  exists self1 self2 self12,
    build_coauthor_matrix (load_data self rs ps1) = Ok self1 /\
    build_coauthor_matrix (load_data self rs ps2) = Ok self2 /\
    build_coauthor_matrix (load_data self rs (ps1 ++ ps2)) = Ok self12 /\
    forall a b, weight self12 a b = (weight self1 a b + weight self2 a b)%Z.
Proof.
  destruct (build_coauthor_matrix_stored self rs ps1) as (M1 & self1 & E1 & C1 & _ & W1).
  destruct (build_coauthor_matrix_stored self rs ps2) as (M2 & self2 & E2 & C2 & _ & W2).
  destruct (build_coauthor_matrix_stored self rs (ps1 ++ ps2))
    as (M & self12 & E & C & _ & W).
  exists self1, self2, self12. repeat split; try done.
  intros a b. unfold weight. rewrite C1, C2, C. simpl.
  rewrite W, W1, W2. apply total_weight_app.
Qed.

(** X6.  A publication with fewer than two authors found in the
    researcher table changes nothing: names that are not in the table are
    skipped, and a single known author forms no pair. *)
Theorem coauthor_matrix_skips_lone_author (self : Recommender)
    (rs : list Researcher) (ps1 ps2 : list Publication) (pub : Publication) :
  length (resolved_authors (id_mapping (map name rs)) pub) <= 1 ->
  exists M self1 self2,
    build_coauthor_matrix (load_data self rs (ps1 ++ pub :: ps2)) = Ok self1 /\
    build_coauthor_matrix (load_data self rs (ps1 ++ ps2)) = Ok self2 /\
    coauthor_matrix self1 = Some M /\ coauthor_matrix self2 = Some M.
Proof.
  intros Hlen.
  destruct (build_coauthor_matrix_stored self rs (ps1 ++ pub :: ps2))
    as (M & self1 & E1 & C1 & HM & W).
  destruct (build_coauthor_matrix_stored self rs (ps1 ++ ps2))
    as (M' & self2 & E2 & C2 & HM' & W').
  exists M, self1, self2. repeat split; try done.
  rewrite C2. f_equal. apply (square_ext (length rs)); [done..|].
  intros a b. rewrite W, W', !total_weight_app. simpl.
  rewrite pair_weight_short; [lia|]. by rewrite author_indices_length.
Qed.

Lemma coauthor_matrix_skips_lone_author_witness :
  exists M self1 self2,
    build_coauthor_matrix
      (load_data init twin_researchers
         (twin_publications ++ publication "P0001" "Carol, Dave, Erin" "Quantum" :: []))
      = Ok self1 /\
    build_coauthor_matrix (load_data init twin_researchers (twin_publications ++ [])) = Ok self2 /\
    coauthor_matrix self1 = Some M /\ coauthor_matrix self2 = Some M.
Proof.
  apply (coauthor_matrix_skips_lone_author init twin_researchers twin_publications []
           (publication "P0001" "Carol, Dave, Erin" "Quantum")).
  vm_compute. lia.
Defined.

Lemma author_indices_not_shadowed (names : list string) (pub : Publication)
    (a j : nat) (nm : string) :
  names !! a = Some nm -> a < j -> names !! j = Some nm ->
  a ∉ author_indices (id_mapping names) pub.
Proof.
  intros Ha Hj Hjn Hin.
  pose proof (author_indices_resolved (id_mapping names) pub) as HF.
  apply list_elem_of_lookup_1 in Hin as [k Hk].
  destruct (Forall2_lookup_r _ _ _ _ _ HF Hk) as (nm' & _ & Hid).
  apply id_mapping_last in Hid as [Hnm Hlast].
  rewrite Ha in Hnm. injection Hnm as <-. by apply (Hlast j Hj).
Qed.

Lemma occurrences_zero (a : nat) (idxs : list nat) :
  a ∉ idxs -> occurrences a idxs = 0%Z.
Proof.
  intros Hn. pose proof (occurrences_nonneg a idxs).
  destruct (decide (0 < occurrences a idxs)%Z) as [Hpos|]; [|lia].
  by apply occurrences_pos in Hpos.
Qed.

(** X7.  A researcher whose name is repeated further down the researcher
    table gets no co-authorship at all: publications are credited to the
    last row of that name, and the row and column of the earlier one stay
    zero. *)
Theorem shadowed_researcher_has_no_coauthors (self : Recommender)
    (rs : list Researcher) (ps : list Publication) (a j : nat) (nm : string) :
  map name rs !! a = Some nm -> a < j -> map name rs !! j = Some nm ->
  exists self', build_coauthor_matrix (load_data self rs ps) = Ok self' /\
    forall b, weight self' a b = 0%Z /\ weight self' b a = 0%Z.
Proof.
  intros Ha Hj Hjn.
  destruct (build_coauthor_matrix_stored self rs ps) as (M & self' & E & C & _ & W).
  exists self'. split; [done|].
  assert (forall b, total_weight (id_mapping (map name rs)) ps a b = 0%Z) as Hz.
  { intros b. clear E W. induction ps as [|pub ps IH]; simpl; [done|].
    rewrite IH. unfold pair_weight.
    rewrite (occurrences_zero a) by (by eapply author_indices_not_shadowed).
    case_decide; lia. }
  intros b. unfold weight. rewrite C. simpl. rewrite !W.
  split; [apply Hz|]. rewrite total_weight_sym. apply Hz.
Qed.

Lemma shadowed_researcher_has_no_coauthors_witness :
  exists self',
    build_coauthor_matrix (load_data init [alice; bob; alice] twin_publications) = Ok self' /\
    forall b, weight self' 0 b = 0%Z /\ weight self' b 0 = 0%Z.
Proof.
  exact (shadowed_researcher_has_no_coauthors init [alice; bob; alice] twin_publications
           0 2 "Alice" eq_refl (le_S 1 1 (le_n 1)) eq_refl).
Defined.

(** ** How the calls compose *)


(** X9.  [recommend_collaborators] needs both matrices.  For a name of the
    researcher table it raises a TypeError (the matrix is still [None])
    when called right after [load_data], and also when only one of the two
    build steps has been run. *)
Theorem recommend_requires_both_models (rnd : Q -> Q)
    (tfidf_transform : list (list nat) -> list (list Q))
    (cosine_similarity : list Q -> list (list Q) -> list Q)
    (rs : list Researcher) (ps : list Publication) (researcher_name : string) (top_n : Z) :
  (forall counts, length (tfidf_transform counts) = length counts) ->
  researcher_name ∈ map name rs ->
  let loaded := load_data init rs ps in
  recommend_collaborators rnd cosine_similarity loaded researcher_name top_n
    = Raise TypeError /\
  (forall self, build_coauthor_matrix loaded = Ok self ->
     recommend_collaborators rnd cosine_similarity self researcher_name top_n
       = Raise TypeError) /\
  (forall self, build_content_profiles tfidf_transform loaded = Ok self ->
     recommend_collaborators rnd cosine_similarity self researcher_name top_n
       = Raise TypeError).
Proof.
  intros tfidf_rows Hin loaded.
  destruct (id_mapping_is_Some _ _ Hin) as [idx Hidx].
  split; [|split].
  - unfold recommend_collaborators, loaded. simpl. by rewrite Hidx.
  - intros self. unfold loaded.
    destruct (build_coauthor_matrix_spec init rs ps) as (M & -> & _ & _).
    intros [= <-]. unfold recommend_collaborators. simpl. by rewrite Hidx.
  - intros self. unfold loaded, build_content_profiles.
    erewrite text_data_spec by done. cbn [mbind Exc_bind]. unfold fit_transform.
    destruct (count_vectorizer (map (profile_text ps) rs)) as [e|counts] eqn:Hc; [done|].
    cbn [mbind Exc_bind]. intros [= <-].
    apply count_vectorizer_length in Hc. rewrite length_map in Hc.
    unfold recommend_collaborators. simpl. rewrite Hidx.
    unfold combined_scores. simpl.
    destruct (lookup_lt_is_Some_2 (tfidf_transform counts) idx) as [x Hx].
    { rewrite tfidf_rows, Hc. apply id_mapping_lt in Hidx. by rewrite length_map in Hidx. }
    unfold list_get. by rewrite Hx.
Qed.

Lemma recommend_requires_both_models_witness :
  let loaded := load_data init twin_researchers twin_publications in
  recommend_collaborators round64 cosine_rational loaded "Alice" 5 = Raise TypeError /\
  (forall self, build_coauthor_matrix loaded = Ok self ->
     recommend_collaborators round64 cosine_rational self "Alice" 5 = Raise TypeError) /\
  (forall self, build_content_profiles tf_l2 loaded = Ok self ->
     recommend_collaborators round64 cosine_rational self "Alice" 5 = Raise TypeError).
Proof.
  exact (recommend_requires_both_models round64 tf_l2 cosine_rational
           twin_researchers twin_publications "Alice" 5
           tf_l2_rows alice_in_twin_researchers).
Defined.

(** X10.  [load_data] replaces the tables and the id mapping but keeps the
    matrices of the tables loaded before.  Without a rebuild, a query for
    a researcher whose row lies beyond the old table raises an
    IndexError. *)
Theorem recommend_after_reload_without_rebuild (rnd : Q -> Q)
    (tfidf_transform : list (list nat) -> list (list Q))
    (cosine_similarity : list Q -> list (list Q) -> list Q)
    (rs rs' : list Researcher) (ps ps' : list Publication) (self : Recommender)
    (researcher_name : string) (researcher_idx : nat) (top_n : Z) :
  (forall counts, length (tfidf_transform counts) = length counts) ->
  build_models tfidf_transform rs ps = Ok self ->
  researcher_ids (load_data self rs' ps') !! researcher_name = Some researcher_idx ->
  length rs <= researcher_idx ->
  recommend_collaborators rnd cosine_similarity (load_data self rs' ps') researcher_name top_n
    = Raise IndexError.
Proof.
  intros tfidf_rows Hbuild Hidx Hge.
  apply build_models_built in Hbuild as [_ _ _ _ (counts & Hc & HT)].
  apply count_vectorizer_length in Hc. rewrite length_map in Hc.
  unfold recommend_collaborators. rewrite Hidx. unfold combined_scores.
  cbn [tfidf_matrix load_data]. rewrite HT. cbn [not_none mbind Exc_bind].
  unfold list_get. rewrite lookup_ge_None_2; [done|].
  rewrite tfidf_rows, Hc. done.
Qed.

Lemma recommend_after_reload_without_rebuild_witness :
  recommend_collaborators round64 cosine_rational
    (load_data twin_model (twin_researchers ++ [dana]) twin_publications) "Dana" 5
  = Raise IndexError.
Proof.
  apply (recommend_after_reload_without_rebuild round64 tf_l2 cosine_rational
           twin_researchers (twin_researchers ++ [dana]) twin_publications twin_publications
           twin_model "Dana" 3 5 tf_l2_rows twin_model_built).
  - vm_compute. reflexivity.
  - vm_compute. lia.
Defined.

(** ** More on the profile texts *)

Lemma append_assoc (a b c : string) : (a +:+ b) +:+ c = a +:+ b +:+ c.
Proof.
  induction a as [|x a IH]; [done|].
  change (String x ((a +:+ b) +:+ c) = String x (a +:+ b +:+ c)). by rewrite IH.
Qed.

Lemma append_nil_r (a : string) : a +:+ "" = a.
Proof.
  induction a as [|x a IH]; [done|].
  change (String x (a +:+ "") = String x a). by rewrite IH.
Qed.

Lemma matches_char_same (c : ascii) : matches_char c c = true.
Proof.
  unfold matches_char. destruct (Ascii.eqb c ".") eqn:E.
  - by apply Ascii.eqb_eq in E as ->.
  - apply Ascii.eqb_refl.
Qed.

Lemma match_here_prefix (p s : string) :
  String.prefix p s = true -> match_here p s = true.
Proof.
  revert s. induction p as [|a p IH]; intros [|c s]; simpl; try done.
  destruct (ascii_dec a c) as [->|]; [|done].
  intros H. rewrite matches_char_same. by apply IH.
Qed.

Lemma str_contains_substring (p s : string) :
  is_substring p s = true -> str_contains p s = true.
Proof.
  induction s as [|c s IH]; cbn [is_substring str_contains].
  - rewrite orb_false_r. intros H. by rewrite match_here_prefix.
  - intros [H|H]%orb_true_iff.
    + by rewrite match_here_prefix.
    + rewrite IH by done. apply orb_true_r.
Qed.

Lemma match_here_literal (p s : string) :
  "."%char ∉ String.list_ascii_of_string p -> match_here p s = String.prefix p s.
Proof.
  revert s. induction p as [|a p IH]; intros [|c s] Hp; simpl; try done.
  simpl in Hp. apply not_elem_of_cons in Hp as [Ha Hp].
  unfold matches_char. rewrite (proj2 (Ascii.eqb_neq a ".")) by done.
  destruct (ascii_dec a c) as [->|Hne].
  - rewrite Ascii.eqb_refl. by apply IH.
  - by rewrite (proj2 (Ascii.eqb_neq a c)).
Qed.

Lemma str_contains_literal (p s : string) :
  "."%char ∉ String.list_ascii_of_string p -> str_contains p s = is_substring p s.
Proof.
  intros Hp. induction s as [|c s IH]; cbn [is_substring str_contains].
  - by rewrite match_here_literal.
  - by rewrite match_here_literal, IH.
Qed.

Lemma join_elem (sep : string) (l : list string) (k : string) :
  k ∈ l -> exists a s, join sep l = a +:+ k +:+ s.
Proof.
  unfold join. induction l as [|x l IH]; [by intros ?%elem_of_nil|].
  intros [->|Hk]%elem_of_cons.
  - destruct l as [|y l].
    + exists "", "". simpl. by rewrite append_nil_r.
    + by exists "", (sep +:+ String.concat sep (y :: l)).
  - destruct (IH Hk) as (a & s & E). destruct l as [|y l]; [by apply elem_of_nil in Hk|].
    exists (x +:+ sep +:+ a), s.
    change (String.concat sep (x :: y :: l))
      with (x +:+ sep +:+ String.concat sep (y :: l)).
    by rewrite E, !append_assoc.
Qed.

(** X11.  Every publication of the table whose author field contains the
    researcher's name as it is written contributes its keywords to that
    researcher's profile text. *)
Theorem profile_text_includes_keywords (ps : list Publication)
    (r : Researcher) (pub : Publication) :
  regex_supported (name r) = true ->
  pub ∈ ps -> is_substring (name r) (authors pub) = true ->
  is_substring (keywords pub) (profile_text ps r) = true.
Proof.
  intros _ Hpub Hsub. unfold profile_text.
  destruct (join_elem " " (map keywords
              (List.filter (fun pub => str_contains (name r) (authors pub)) ps))
              (keywords pub)) as (a & s & ->).
  { apply list_elem_of_fmap_2, list_elem_of_In, filter_In. split.
    - by apply list_elem_of_In.
    - by apply str_contains_substring. }
  rewrite <- (append_assoc " "), <- (append_assoc (research_interests r)).
  apply is_substring_middle.
Qed.

Lemma profile_text_includes_keywords_witness :
  is_substring (keywords greenberg_paper) (profile_text [greenberg_paper] al_greenberg) = true.
Proof.
  apply (profile_text_includes_keywords [greenberg_paper] al_greenberg greenberg_paper).
  - vm_compute. reflexivity.
  - constructor.
  - vm_compute. reflexivity.
Defined.

(** X12.  For a name without a dot (and without any other character that
    a regular expression reads specially) the selection made by
    [str.contains] is plain containment: the profile text is the
    research interests, a space, and the keywords of the publications
    whose author field contains the name, in table order, separated by
    spaces. *)
Theorem profile_text_of_plain_name (ps : list Publication) (r : Researcher) :
  regex_supported (name r) = true ->
  "."%char ∉ String.list_ascii_of_string (name r) ->
  profile_text ps r
  = research_interests r +:+ " " +:+
      join " " (map keywords
        (List.filter (fun pub => is_substring (name r) (authors pub)) ps)).
Proof.
  intros _ Hdot. unfold profile_text. do 4 f_equal.
  apply filter_ext. intros pub. by apply str_contains_literal.
Qed.

Lemma profile_text_of_plain_name_witness :
  profile_text twin_publications alice
  = research_interests alice +:+ " " +:+
      join " " (map keywords
        (List.filter (fun pub => is_substring (name alice) (authors pub)) twin_publications)).
Proof.
  apply (profile_text_of_plain_name twin_publications alice).
  - vm_compute. reflexivity.
  - apply (bool_decide_unpack _). vm_compute. exact I.
Defined.



(** ** More on [recommend_collaborators] *)

Lemma carol_in_twin_researchers : "Carol" ∈ map name twin_researchers.
Proof. apply (bool_decide_unpack _). vm_compute. exact I. Defined.

Lemma recommend_sorted_descending_witness :
  exists recs,
    recommend_collaborators round64 cosine_rational twin_model "Carol" 2 = Ok recs /\
    StronglySorted (fun r1 r2 => (score r2 <= score r1)%Q) recs.
Proof.
  exact (recommend_sorted_descending round64 tf_l2 cosine_rational
           tf_l2_rows cosine_rational_length
           twin_researchers twin_publications twin_model "Carol" 2
           twin_model_built carol_in_twin_researchers).
Defined.

Lemma Forall_zip_with {A B C : Type} (f : A -> B -> C)
    (P : A -> Prop) (Q : B -> Prop) (R : C -> Prop) (l : list A) (k : list B) :
  (forall x y, P x -> Q y -> R (f x y)) ->
  Forall P l -> Forall Q k -> Forall R (zip_with f l k).
Proof.
  intros Hf Hl. revert k. induction Hl as [|x l Hx _ IH]; intros k Hk; [constructor|].
  destruct Hk as [|y k Hy Hk]; simpl; constructor; auto.
Qed.

Section Scores.
Context (rnd : Q -> Q) `{!Rounding rnd}.
Variable tfidf_transform : list (list nat) -> list (list Q).
Variable cosine_similarity : list Q -> list (list Q) -> list Q.
Hypothesis tfidf_rows : forall counts, length (tfidf_transform counts) = length counts.
Hypothesis cosine_length : forall x Y, length (cosine_similarity x Y) = length Y.

Lemma min_max_normalize_range (v v' : list Q) :
  min_max_normalize rnd v = Ok v' -> Forall (fun y => 0 <= y /\ y <= 1)%Q v'.
Proof.
  destruct v as [|x0 v0] eqn:Ev; [done|]. rewrite <- Ev.
  assert (v <> []) as Hv by (by rewrite Ev).
  destruct (np_min_spec v Hv) as (lo & Elo & Hlo & _).
  destruct (np_max_spec v Hv) as (hi & Ehi & Hhi).
  unfold min_max_normalize. rewrite Elo, Ehi. simpl. intros [= <-].
  apply Forall_fmap, Forall_forall. intros x Hx.
  apply (normalized_bounds rnd lo hi x); auto.
Qed.

Lemma weighted_bounds (w x : Q) :
  (0 <= w)%Q -> (0 <= x)%Q -> (x <= 1)%Q ->
  (0 <= fmul rnd (rnd w) x)%Q /\ (fmul rnd (rnd w) x <= rnd w)%Q.
Proof.
  intros Hw H0 H1. pose proof (rnd_nonneg rnd w Hw) as Hw'. unfold fmul. split.
  - apply (rnd_nonneg rnd). by apply Qmult_le_0_compat.
  - apply Qle_trans with (rnd (rnd w)); [apply rnd_mono|rewrite rnd_idem; apply Qle_refl].
    apply Qle_trans with (rnd w * 1)%Q; [|rewrite Qmult_1_r; apply Qle_refl].
    rewrite !(Qmult_comm (rnd w)). by apply Qmult_le_compat_r.
Qed.

Lemma combined_scores_bounds (rs : list Researcher) (ps : list Publication)
    (self : Recommender) (researcher_idx : nat) (combined : list Q) :
  built_from tfidf_transform rs ps self ->
  researcher_idx < length rs ->
  combined_scores rnd cosine_similarity self researcher_idx = Ok combined ->
  Forall (fun s => 0 <= s /\ s <= rnd (rnd (6 # 10) + rnd (4 # 10)))%Q combined.
Proof.
  intros [Hrs Hps Hids (M & HM & [HMlen HMrows] & _) (counts & Hcounts & HT)] Hlt.
  apply count_vectorizer_length in Hcounts. rewrite length_map in Hcounts.
  unfold combined_scores. rewrite HT, HM. simpl.
  destruct (lookup_lt_is_Some_2 (tfidf_transform counts) researcher_idx) as [x Hx].
  { rewrite tfidf_rows. lia. }
  destruct (lookup_lt_is_Some_2 M researcher_idx) as [row Hrow]; [lia|].
  assert (length row = length rs) as Hrowlen.
  { eapply Forall_lookup_1 in HMrows; eauto. }
  assert (list_get (tfidf_transform counts) researcher_idx = Ok x) as ->
    by (unfold list_get; by rewrite Hx).
  assert (list_get M researcher_idx = Ok row) as ->
    by (unfold list_get; by rewrite Hrow).
  simpl.
  destruct (min_max_normalize_ok rnd (cosine_similarity x (tfidf_transform counts)))
    as (c1 & E1 & Hc1).
  { apply nonempty_length. rewrite cosine_length, tfidf_rows. lia. }
  destruct (min_max_normalize_ok rnd (map inject_Z row)) as (c2 & E2 & Hc2).
  { apply nonempty_length. rewrite length_map. lia. }
  rewrite E1, E2. simpl.
  rewrite cosine_length, tfidf_rows in Hc1. rewrite length_map in Hc2.
  unfold np_add. rewrite decide_True by (rewrite !length_map; lia).
  intros [= <-].
  apply min_max_normalize_range in E1, E2.
  apply (Forall_zip_with _ (fun u => 0 <= u /\ u <= rnd (6 # 10))%Q
                           (fun w => 0 <= w /\ w <= rnd (4 # 10))%Q).
  - intros u w [Hu0 Hu1] [Hw0 Hw1]. unfold fadd. split.
    + apply (rnd_nonneg rnd). rewrite <- (Qplus_0_l 0). by apply Qplus_le_compat.
    + apply rnd_mono. by apply Qplus_le_compat.
  - apply Forall_fmap. eapply Forall_impl; [exact E1|].
    intros u [Hu0 Hu1]. by apply weighted_bounds.
  - apply Forall_fmap. eapply Forall_impl; [exact E2|].
    intros w [Hw0 Hw1]. by apply weighted_bounds.
Qed.

(** X15.  Every score attached to a recommendation lies in [0, 1],
    whatever the similarity values were: both similarities are
    normalised into [0, 1] and blended with weights whose float values
    add up to at most 1. *)
Theorem recommend_scores_in_unit_interval (rs : list Researcher) (ps : list Publication)
    (self : Recommender) (researcher_name : string) (top_n : Z) :
  (rnd (6 # 10) + rnd (4 # 10) <= 1)%Q ->
  build_models tfidf_transform rs ps = Ok self ->
  researcher_name ∈ map name rs ->
  exists recs,
    recommend_collaborators rnd cosine_similarity self researcher_name top_n = Ok recs /\
    Forall (fun rec => 0 <= score rec /\ score rec <= 1)%Q recs.
Proof.
  intros Hweights Hbuild Hin. apply build_models_built in Hbuild as Hbuilt.
  destruct (id_mapping_is_Some _ _ Hin) as [idx Hidx].
  rewrite <- (built_ids _ _ _ _ Hbuilt) in Hidx.
  destruct (recommend_spec rnd tfidf_transform cosine_similarity tfidf_rows cosine_length
              rs ps self researcher_name idx top_n Hbuilt Hidx)
    as (combined & recs & Hc & Hlen & E & HF).
  exists recs. split; [done|].
  assert (idx < length rs) as Hlt.
  { rewrite (built_ids _ _ _ _ Hbuilt) in Hidx.
    apply id_mapping_lt in Hidx. by rewrite length_map in Hidx. }
  pose proof (combined_scores_bounds rs ps self idx combined Hbuilt Hlt Hc) as Hb.
  eapply Forall2_Forall_r; [exact HF|].
  apply Forall_forall. intros i _ rec [_ Hs].
  eapply Forall_lookup_1 in Hb as [H0 H1]; [|exact Hs].
  split; [done|].
  apply Qle_trans with (rnd (rnd (6 # 10) + rnd (4 # 10))); [done|].
  by apply (rnd_le_1 rnd).
Qed.

End Scores.

Lemma recommend_scores_in_unit_interval_witness :
  exists recs,
    recommend_collaborators round64 cosine_rational twin_model "Alice" 2 = Ok recs /\
    Forall (fun rec => 0 <= score rec /\ score rec <= 1)%Q recs.
Proof.
  apply (recommend_scores_in_unit_interval round64 tf_l2 cosine_rational
           tf_l2_rows cosine_rational_length
           twin_researchers twin_publications twin_model "Alice" 2).
  - vm_compute. discriminate.
  - exact twin_model_built.
  - exact alice_in_twin_researchers.
Defined.

(** ** More on the normalisation *)

Lemma exists_minimum (v : list Q) :
  v <> [] -> exists x, x ∈ v /\ forall z, z ∈ v -> (x <= z)%Q.
Proof.
  induction v as [|x v IH]; [done|]. intros _.
  destruct v as [|y v].
  - exists x. split; [by left|]. intros z ->%list_elem_of_singleton. apply Qle_refl.
  - destruct IH as (m & Hm & Hmin); [done|].
    destruct (Qlt_le_dec m x) as [Hlt|Hle].
    + exists m. split; [by right|].
      intros z [->|Hz]%elem_of_cons; [by apply Qlt_le_weak|by apply Hmin].
    + exists x. split; [by left|].
      intros z [->|Hz]%elem_of_cons; [apply Qle_refl|].
      eapply Qle_trans; [exact Hle|by apply Hmin].
Qed.

Section NormalisationOrder.
Context (rnd : Q -> Q) `{!Rounding rnd}.

(** X28.  The normalisation sends the lowest raw score to 0 exactly:
    every entry that is minimal in the vector is normalised to 0, and a
    non-empty vector has such an entry. *)
Theorem min_max_normalize_minimum (v : list Q) :
  v <> [] ->
  exists v', min_max_normalize rnd v = Ok v' /\
    Forall2 (fun x y => (forall z, z ∈ v -> x <= z)%Q -> y == 0) v v' /\
    Exists (fun y => y == 0) v'.
Proof.
  intros Hv.
  destruct (np_min_spec v Hv) as (lo & Elo & Hlo & Hglb).
  destruct (np_max_spec v Hv) as (hi & Ehi & Hhi).
  unfold min_max_normalize. rewrite Elo, Ehi. simpl.
  eexists. split; [done|].
  assert (forall x, x ∈ v -> (forall z, z ∈ v -> x <= z)%Q ->
            fdiv rnd (fsub rnd x lo) (fadd rnd (fsub rnd hi lo) (rnd (1 # 1000000))) == 0)
    as Hzero.
  { intros x Hx Hmin. apply (normalized_zero rnd).
    apply Qle_antisym; [by apply Hglb|by apply Hlo]. }
  split.
  - apply Forall2_fmap_r, Forall_Forall2_diag, Forall_forall.
    intros x Hx Hmin. simpl. by apply Hzero.
  - destruct (exists_minimum v Hv) as (m & Hm & Hmin).
    apply Exists_fmap, Exists_exists. exists m. split; [done|]. simpl. by apply Hzero.
Qed.

(** X29.  The normalisation keeps the order of the scores: an entry that
    is not above another before is not above it after. *)
Theorem min_max_normalize_monotone (v : list Q) :
  v <> [] ->
  exists v', min_max_normalize rnd v = Ok v' /\
    forall i j x x' y y',
      v !! i = Some x -> v !! j = Some x' ->
      v' !! i = Some y -> v' !! j = Some y' ->
      (x <= x')%Q -> (y <= y')%Q.
Proof.
  intros Hv.
  destruct (np_min_spec v Hv) as (lo & Elo & Hlo & _).
  destruct (np_max_spec v Hv) as (hi & Ehi & Hhi).
  unfold min_max_normalize. rewrite Elo, Ehi. simpl.
  eexists. split; [done|].
  intros i j x x' y y' Hi Hj Hy Hy' Hle.
  rewrite list_lookup_fmap, Hi in Hy. rewrite list_lookup_fmap, Hj in Hy'.
  simpl in Hy, Hy'. injection Hy as <-. injection Hy' as <-.
  assert (0 <= hi - lo)%Q as Hd.
  { apply list_elem_of_lookup_2 in Hi.
    rewrite <- (Qplus_opp_r lo). apply Qplus_le_l.
    eapply Qle_trans; [by apply Hlo|by apply Hhi]. }
  destruct (denominator_bounds rnd (hi - lo) Hd) as [Hpos _].
  unfold fdiv, fsub in *. apply rnd_mono. unfold Qdiv.
  apply Qmult_le_compat_r.
  - apply rnd_mono. by apply Qplus_le_l.
  - apply Qinv_le_0_compat. by apply Qlt_le_weak.
Qed.

End NormalisationOrder.

Lemma min_max_normalize_minimum_witness :
  exists v', min_max_normalize round64 [1 # 2; 1; 0]%Q = Ok v' /\
    Forall2 (fun x y => (forall z, z ∈ [1 # 2; 1; 0]%Q -> x <= z)%Q -> y == 0)
      [1 # 2; 1; 0]%Q v' /\
    Exists (fun y => y == 0) v'.
Proof.
  apply (min_max_normalize_minimum round64 [1 # 2; 1; 0]%Q). discriminate.
Defined.

Lemma min_max_normalize_monotone_witness :
  exists v', min_max_normalize round64 [1 # 2; 1; 0]%Q = Ok v' /\
    forall i j x x' y y',
      [1 # 2; 1; 0]%Q !! i = Some x -> [1 # 2; 1; 0]%Q !! j = Some x' ->
      v' !! i = Some y -> v' !! j = Some y' ->
      (x <= x')%Q -> (y <= y')%Q.
Proof.
  apply (min_max_normalize_monotone round64 [1 # 2; 1; 0]%Q). discriminate.
Defined.

(** ** The window of [recommend_collaborators] *)

(** The slice [[-top_n-1:-1]] never holds the last index of the order;
    of the others it drops the lowest-ranked ones. *)
Lemma slice_window {A : Type} (l : list A) (x : A) (top_n : Z) :
  slice (l ++ [x]) (- top_n - 1) (-1)
  = drop (if (top_n <? 0)%Z then Z.to_nat (- top_n - 1)
          else length l - Z.to_nat top_n) l.
Proof.
  unfold slice, slice_bound. rewrite length_app. simpl.
  replace (Z.to_nat (Z.max 0 (-1 + Z.of_nat (length l + 1)))) with (length l) by lia.
  destruct (top_n <? 0)%Z eqn:E.
  - apply Z.ltb_lt in E.
    destruct (- top_n - 1 <? 0)%Z eqn:E'; [apply Z.ltb_lt in E'; lia|].
    set (s := Z.to_nat (- top_n - 1)).
    destruct (decide (s <= length l)) as [Hle|Hgt].
    + rewrite Nat.min_l by lia. rewrite drop_app_le by done.
      apply take_app_length'. rewrite length_drop. lia.
    + rewrite Nat.min_r by lia. rewrite (drop_ge l) by lia.
      rewrite drop_ge by (rewrite length_app; simpl; lia). apply take_nil.
  - apply Z.ltb_ge in E.
    destruct (- top_n - 1 <? 0)%Z eqn:E'; [|apply Z.ltb_ge in E'; lia].
    replace (Z.to_nat (Z.max 0 (- top_n - 1 + Z.of_nat (length l + 1))))
      with (length l - Z.to_nat top_n) by lia.
    rewrite drop_app_le by lia.
    apply take_app_length'. rewrite length_drop. lia.
Qed.

Lemma filter_all {A : Type} (P : A -> Prop) `{!forall x, Decision (P x)} (l : list A) :
  Forall P l -> filter P l = l.
Proof.
  induction 1 as [|x l Hx _ IH]; [done|].
  by rewrite filter_cons_True, IH.
Qed.

Lemma argsort_snoc (v : list Q) :
  0 < length v -> exists l x, argsort v = l ++ [x] /\ (x ∉ l) /\ x < length v.
Proof.
  intros Hlen.
  destruct (last (argsort v)) as [x|] eqn:E.
  - apply last_Some in E as [l E]. exists l, x. split; [done|].
    pose proof (argsort_NoDup v) as Hnd. rewrite E in Hnd.
    apply NoDup_app in Hnd as (_ & Hl & _).
    pose proof (argsort_lt v) as Hlt. rewrite E in Hlt.
    apply Forall_app in Hlt as [_ Hx]. rewrite Forall_singleton in Hx.
    split; [|exact Hx]. intros Hin. apply (Hl x Hin). by left.
  - apply last_None in E. apply (f_equal length) in E.
    rewrite argsort_length in E. simpl in E. lia.
Qed.

Lemma argsort_last_strict_max (v : list Q) (idx : nat) :
  idx < length v ->
  (forall j, j < length v -> j ≠ idx -> (value_at v j < value_at v idx)%Q) ->
  exists l, argsort v = l ++ [idx] /\ idx ∉ l.
Proof.
  intros Hidx Hmax.
  destruct (argsort_snoc v) as (l & x & E & Hx & Hlt); [lia|].
  destruct (decide (x = idx)) as [->|Hne]; [by exists l|]. exfalso.
  assert (idx ∈ argsort v) as Hin.
  { rewrite argsort_Permutation. apply elem_of_seq. lia. }
  rewrite E in Hin. apply elem_of_app in Hin as [Hin|Hin]; last first.
  { apply list_elem_of_singleton in Hin. by subst. }
  pose proof (argsort_ascending v) as HS. rewrite E in HS.
  pose proof (StronglySorted_app_1_elem_of _ _ _ idx x HS Hin ltac:(by left)) as Hle.
  simpl in Hle. apply (Qlt_not_le _ _ (Hmax x Hlt Hne)). exact Hle.
Qed.

Lemma rec_at_functional (rs : list Researcher) (combined : list Q) (i : nat)
    (rec rec' : Recommendation) :
  rec_at rs combined i rec -> rec_at rs combined i rec' -> rec = rec'.
Proof.
  intros [H1 H2] [H1' H2']. destruct rec, rec'. simpl in *. congruence.
Qed.

Lemma Forall2_rec_at_prefix (rs : list Researcher) (combined : list Q)
    (l l' : list nat) (recs recs' : list Recommendation) :
  l `prefix_of` l' ->
  Forall2 (rec_at rs combined) l recs -> Forall2 (rec_at rs combined) l' recs' ->
  recs `prefix_of` recs'.
Proof.
  intros [k ->] HF HF'.
  apply Forall2_app_inv_l in HF' as (r1 & r2 & H1 & _ & ->).
  exists r2. f_equal. clear -HF H1. revert r1 H1.
  induction HF as [|i rec l recs Hi _ IH]; intros r1 H1.
  - by apply Forall2_nil_inv_l in H1.
  - apply Forall2_cons_inv_l in H1 as (rec' & r1' & Hi' & H1 & ->).
    f_equal; [by eapply rec_at_functional|by apply IH].
Qed.

Section Ranking.
Variable rnd : Q -> Q.
Variable tfidf_transform : list (list nat) -> list (list Q).
Variable cosine_similarity : list Q -> list (list Q) -> list Q.
Hypothesis tfidf_rows : forall counts, length (tfidf_transform counts) = length counts.
Hypothesis cosine_length : forall x Y, length (cosine_similarity x Y) = length Y.

(** What [recommend_collaborators] returns, with the facts about the
    index and the score vector that the theorems below start from. *)
Lemma recommend_known (rs : list Researcher) (ps : list Publication)
    (self : Recommender) (researcher_name : string) (top_n : Z) :
  build_models tfidf_transform rs ps = Ok self ->
  researcher_name ∈ map name rs ->
  exists researcher_idx combined recs,
    researcher_ids self !! researcher_name = Some researcher_idx /\
    map name rs !! researcher_idx = Some researcher_name /\
    combined_scores rnd cosine_similarity self researcher_idx = Ok combined /\
    length combined = length rs /\
    recommend_collaborators rnd cosine_similarity self researcher_name top_n = Ok recs /\
    Forall2 (rec_at rs combined)
      (filter (fun i => i ≠ researcher_idx)
         (reverse (slice (argsort combined) (- top_n - 1) (-1)))) recs.
Proof.
  intros Hbuild Hin. apply build_models_built in Hbuild as Hbuilt.
  destruct (id_mapping_is_Some _ _ Hin) as [idx Hidx].
  pose proof (id_mapping_lookup _ _ _ Hidx) as Hrow.
  rewrite <- (built_ids _ _ _ _ Hbuilt) in Hidx.
  destruct (recommend_spec rnd tfidf_transform cosine_similarity tfidf_rows cosine_length
              rs ps self researcher_name idx top_n Hbuilt Hidx)
    as (combined & recs & Hc & Hlen & E & HF).
  by exists idx, combined, recs.
Qed.

(** X16.  When the query researcher's own combined score is strictly the
    highest, the list returned is the one the ranking step describes: the
    researchers other than the query in descending order of score, cut
    after [top_n]. *)
Theorem recommend_ranking_when_query_scores_highest
    (rs : list Researcher) (ps : list Publication) (self : Recommender)
    (researcher_name : string) (researcher_idx : nat) (combined : list Q) (top_n : Z) :
  build_models tfidf_transform rs ps = Ok self ->
  researcher_ids self !! researcher_name = Some researcher_idx ->
  combined_scores rnd cosine_similarity self researcher_idx = Ok combined ->
  (forall j, j < length rs -> j ≠ researcher_idx ->
     (value_at combined j < value_at combined researcher_idx)%Q) ->
  (0 <= top_n)%Z ->
  exists recs,
    recommend_collaborators rnd cosine_similarity self researcher_name top_n = Ok recs /\
    Forall2 (rec_at rs combined) (expected_ranking combined researcher_idx top_n) recs.
Proof.
  intros Hbuild Hidx Hc Hmax Hn. apply build_models_built in Hbuild as Hbuilt.
  destruct (recommend_spec rnd tfidf_transform cosine_similarity tfidf_rows cosine_length
              rs ps self researcher_name researcher_idx top_n Hbuilt Hidx)
    as (combined' & recs & Hc' & Hlen & E & HF).
  rewrite Hc in Hc'. injection Hc' as <-.
  exists recs. split; [done|].
  assert (researcher_idx < length combined) as Hlt.
  { rewrite Hlen. rewrite (built_ids _ _ _ _ Hbuilt) in Hidx.
    apply id_mapping_lt in Hidx. by rewrite length_map in Hidx. }
  destruct (argsort_last_strict_max combined researcher_idx Hlt) as (l & El & Hl).
  { intros j Hj. apply Hmax. by rewrite <- Hlen. }
  assert (Forall (fun i => i ≠ researcher_idx) (reverse l)) as Hall.
  { apply Forall_forall. intros i Hi ->. by rewrite elem_of_reverse in Hi. }
  unfold expected_ranking. rewrite El in HF |- *.
  rewrite slice_window in HF.
  destruct (top_n <? 0)%Z eqn:Eneg; [apply Z.ltb_lt in Eneg; lia|].
  rewrite reverse_drop in HF.
  replace (length l - (length l - Z.to_nat top_n))
    with (Nat.min (Z.to_nat top_n) (length l)) in HF by lia.
  assert (take (Nat.min (Z.to_nat top_n) (length l)) (reverse l)
          = take (Z.to_nat top_n) (reverse l)) as Htake.
  { rewrite <- take_take. f_equal. apply take_ge. by rewrite length_reverse. }
  rewrite Htake, filter_all in HF by (by apply Forall_take).
  rewrite reverse_app, reverse_singleton.
  change ([researcher_idx] ++ reverse l) with (researcher_idx :: reverse l).
  rewrite filter_cons_False by (intros H; by apply H).
  by rewrite filter_all.
Qed.

(** X17.  Asking for more results only extends the list: for
    [0 <= top_n <= top_n'] the list returned for [top_n] is a prefix of
    the list returned for [top_n']. *)
Theorem recommend_prefix_stable (rs : list Researcher) (ps : list Publication)
    (self : Recommender) (researcher_name : string) (top_n top_n' : Z) :
  build_models tfidf_transform rs ps = Ok self ->
  researcher_name ∈ map name rs ->
  (0 <= top_n)%Z -> (top_n <= top_n')%Z ->
  exists recs recs',
    recommend_collaborators rnd cosine_similarity self researcher_name top_n = Ok recs /\
    recommend_collaborators rnd cosine_similarity self researcher_name top_n' = Ok recs' /\
    recs `prefix_of` recs'.
Proof.
  intros Hbuild Hin H0 Hle.
  destruct (recommend_known rs ps self researcher_name top_n Hbuild Hin)
    as (idx & combined & recs & Hidx & Hrow & Hc & Hlen & E & HF).
  destruct (recommend_known rs ps self researcher_name top_n' Hbuild Hin)
    as (idx' & combined' & recs' & Hidx' & _ & Hc' & _ & E' & HF').
  rewrite Hidx in Hidx'. injection Hidx' as <-.
  rewrite Hc in Hc'. injection Hc' as <-.
  exists recs, recs'. split; [done|]. split; [done|].
  eapply Forall2_rec_at_prefix; [|exact HF|exact HF'].
  destruct (argsort_snoc combined) as (l & x & El & _ & _).
  { rewrite Hlen. apply lookup_lt_Some in Hrow. rewrite length_map in Hrow. lia. }
  rewrite El, !slice_window.
  destruct (top_n <? 0)%Z eqn:E1; [apply Z.ltb_lt in E1; lia|].
  destruct (top_n' <? 0)%Z eqn:E2; [apply Z.ltb_lt in E2; lia|].
  set (s := length l - Z.to_nat top_n). set (s' := length l - Z.to_nat top_n').
  assert (s' <= s) as Hs by lia.
  rewrite <- (take_drop (s - s') (drop s' l)), drop_drop.
  replace (s' + (s - s')) with s by lia.
  rewrite reverse_app, filter_app. by apply prefix_app_r.
Qed.

(** X18.  A non-positive [top_n] raises nothing.  With [top_n = 0] the
    list returned is empty.  With a negative [top_n] the slice starts from
    the front of the order, so the window holds all indices but the
    [-top_n - 1] lowest-ranked and the top-ranked one, [n + top_n] of
    them, and the list returned is the window without the query: the
    call [top_n = -1] returns more entries than any positive [top_n]. *)
Theorem recommend_nonpositive_top_n (rs : list Researcher) (ps : list Publication)
    (self : Recommender) (researcher_name : string) :
  build_models tfidf_transform rs ps = Ok self ->
  researcher_name ∈ map name rs ->
  recommend_collaborators rnd cosine_similarity self researcher_name 0 = Ok [] /\
  forall top_n, (top_n < 0)%Z ->
    exists researcher_idx combined recs,
      researcher_ids self !! researcher_name = Some researcher_idx /\
      combined_scores rnd cosine_similarity self researcher_idx = Ok combined /\
      recommend_collaborators rnd cosine_similarity self researcher_name top_n = Ok recs /\
      let window := slice (argsort combined) (- top_n - 1) (-1) in
      length window = Z.to_nat (Z.of_nat (length rs) + top_n) /\
      length recs + (if decide (researcher_idx ∈ window) then 1 else 0) = length window.
Proof.
  intros Hbuild Hin. split.
  - destruct (recommend_known rs ps self researcher_name 0 Hbuild Hin)
      as (idx & combined & recs & Hidx & Hrow & Hc & Hlen & E & HF).
    destruct (argsort_snoc combined) as (l & x & El & _ & _).
    { rewrite Hlen. apply lookup_lt_Some in Hrow. rewrite length_map in Hrow. lia. }
    rewrite El, slice_window in HF. simpl in HF.
    rewrite Nat.sub_0_r, drop_all in HF. simpl in HF.
    apply Forall2_nil_inv_l in HF. by rewrite <- HF.
  - intros top_n Hneg.
    destruct (recommend_known rs ps self researcher_name top_n Hbuild Hin)
      as (idx & combined & recs & Hidx & Hrow & Hc & Hlen & E & HF).
    exists idx, combined, recs. split; [done|]. split; [done|]. split; [done|].
    simpl.
    destruct (argsort_snoc combined) as (l & x & El & _ & _).
    { rewrite Hlen. apply lookup_lt_Some in Hrow. rewrite length_map in Hrow. lia. }
    assert (length l + 1 = length rs) as Hl.
    { rewrite <- Hlen, <- (argsort_length combined), El, length_app. done. }
    apply Forall2_length in HF.
    pose proof (length_filter_ne idx
                  (reverse (slice (argsort combined) (- top_n - 1) (-1)))) as Hf.
    rewrite length_reverse in Hf.
    assert (NoDup (reverse (slice (argsort combined) (- top_n - 1) (-1)))) as Hnd.
    { rewrite reverse_Permutation. apply slice_NoDup, argsort_NoDup. }
    specialize (Hf Hnd). rewrite HF in Hf.
    split.
    + rewrite El, slice_window.
      destruct (top_n <? 0)%Z eqn:E1; [|apply Z.ltb_ge in E1; lia].
      rewrite length_drop. lia.
    + rewrite <- Hf. repeat case_decide; try done.
      * exfalso. by rewrite elem_of_reverse in *.
      * exfalso. by rewrite elem_of_reverse in *.
Qed.

(** X19.  No researcher is recommended twice: when the names of the
    researcher table are pairwise distinct, so are the names in the list
    returned. *)
Theorem recommend_no_duplicates (rs : list Researcher) (ps : list Publication)
    (self : Recommender) (researcher_name : string) (top_n : Z) :
  build_models tfidf_transform rs ps = Ok self ->
  researcher_name ∈ map name rs ->
  NoDup (map name rs) ->
  exists recs,
    recommend_collaborators rnd cosine_similarity self researcher_name top_n = Ok recs /\
    NoDup (map (fun rec => name (rec_row rec)) recs).
Proof.
  intros Hbuild Hin Hnames.
  destruct (recommend_known rs ps self researcher_name top_n Hbuild Hin)
    as (idx & combined & recs & _ & _ & _ & _ & E & HF).
  exists recs. split; [done|].
  assert (NoDup (filter (fun i => i ≠ idx)
                   (reverse (slice (argsort combined) (- top_n - 1) (-1))))) as Hnd.
  { apply NoDup_filter. rewrite reverse_Permutation. apply slice_NoDup, argsort_NoDup. }
  clear E. induction HF as [|i rec picked recs [Hi _] HF IH]; [constructor|].
  apply NoDup_cons in Hnd as [Hni Hnd]. simpl. constructor; [|by apply IH].
  intros (rec' & Hname & Hrec')%list_elem_of_fmap.
  apply list_elem_of_lookup_1 in Hrec' as [k Hk].
  destruct (Forall2_lookup_r _ _ _ _ _ HF Hk) as (j & Hj & [Hjrow _]).
  apply Hni. replace i with j; [by eapply list_elem_of_lookup_2|].
  eapply NoDup_lookup; [exact Hnames| |].
  - by rewrite list_lookup_fmap, Hjrow.
  - rewrite list_lookup_fmap, Hi. simpl in *. congruence.
Qed.

End Ranking.

Lemma recommend_ranking_when_query_scores_highest_witness :
  exists recs,
    recommend_collaborators round64 cosine_rational twin_model "Carol" 2 = Ok recs /\
    Forall2 (rec_at twin_researchers (twin_scores 2))
      (expected_ranking (twin_scores 2) 2 2) recs.
Proof.
  apply (recommend_ranking_when_query_scores_highest round64 tf_l2 cosine_rational
           tf_l2_rows cosine_rational_length
           twin_researchers twin_publications twin_model "Carol" 2 (twin_scores 2) 2
           twin_model_built).
  - vm_compute. reflexivity.
  - vm_compute. reflexivity.
  - intros j Hj Hne. destruct j as [|[|[|j]]].
    + vm_compute. reflexivity.
    + vm_compute. reflexivity.
    + by destruct Hne.
    + simpl in Hj. lia.
  - lia.
Defined.

Lemma recommend_prefix_stable_witness :
  exists recs recs',
    recommend_collaborators round64 cosine_rational twin_model "Carol" 1 = Ok recs /\
    recommend_collaborators round64 cosine_rational twin_model "Carol" 2 = Ok recs' /\
    recs `prefix_of` recs'.
Proof.
  apply (recommend_prefix_stable round64 tf_l2 cosine_rational
           tf_l2_rows cosine_rational_length
           twin_researchers twin_publications twin_model "Carol" 1 2
           twin_model_built carol_in_twin_researchers); lia.
Defined.

Lemma recommend_nonpositive_top_n_witness :
  recommend_collaborators round64 cosine_rational twin_model "Alice" 0 = Ok [] /\
  forall top_n, (top_n < 0)%Z ->
    exists researcher_idx combined recs,
      researcher_ids twin_model !! "Alice" = Some researcher_idx /\
      combined_scores round64 cosine_rational twin_model researcher_idx = Ok combined /\
      recommend_collaborators round64 cosine_rational twin_model "Alice" top_n = Ok recs /\
      let window := slice (argsort combined) (- top_n - 1) (-1) in
      length window = Z.to_nat (Z.of_nat (length twin_researchers) + top_n) /\
      length recs + (if decide (researcher_idx ∈ window) then 1 else 0) = length window.
Proof.
  exact (recommend_nonpositive_top_n round64 tf_l2 cosine_rational
           tf_l2_rows cosine_rational_length
           twin_researchers twin_publications twin_model "Alice"
           twin_model_built alice_in_twin_researchers).
Defined.

Lemma recommend_no_duplicates_witness :
  exists recs,
    recommend_collaborators round64 cosine_rational twin_model "Carol" 2 = Ok recs /\
    NoDup (map (fun rec => name (rec_row rec)) recs).
Proof.
  exact (recommend_no_duplicates round64 tf_l2 cosine_rational
           tf_l2_rows cosine_rational_length
           twin_researchers twin_publications twin_model "Carol" 2
           twin_model_built carol_in_twin_researchers twin_names_NoDup).
Defined.

(** ** The author field *)

Lemma split_no_sep (sep : ascii) (a : string) :
  sep ∉ String.list_ascii_of_string a -> split sep a = [a].
Proof.
  induction a as [|c a IH]; [done|]. simpl.
  intros [Hc Ha]%not_elem_of_cons.
  rewrite (proj2 (Ascii.eqb_neq c sep)) by done. by rewrite IH.
Qed.

Lemma split_append_sep (sep : ascii) (a s : string) :
  sep ∉ String.list_ascii_of_string a ->
  split sep (a +:+ String sep s) = a :: split sep s.
Proof.
  induction a as [|c a IH].
  - intros _. change ("" +:+ String sep s) with (String sep s).
    cbn [split]. by rewrite Ascii.eqb_refl.
  - simpl String.list_ascii_of_string. intros [Hc Ha]%not_elem_of_cons.
    change (String c a +:+ String sep s) with (String c (a +:+ String sep s)).
    cbn [split]. rewrite (proj2 (Ascii.eqb_neq c sep)) by done. by rewrite IH.
Qed.

Lemma list_ascii_of_string_app (a b : string) :
  String.list_ascii_of_string (a +:+ b)
  = String.list_ascii_of_string a ++ String.list_ascii_of_string b.
Proof.
  induction a as [|c a IH]; [done|].
  change (String c a +:+ b) with (String c (a +:+ b)). simpl. by rewrite IH.
Qed.

Lemma split_join (pre hd : string) (tl : list string) :
  ","%char ∉ String.list_ascii_of_string pre ->
  Forall (fun a => ","%char ∉ String.list_ascii_of_string a) (hd :: tl) ->
  split "," (pre +:+ join ", " (hd :: tl))
  = (pre +:+ hd) :: map (fun a => " " +:+ a) tl.
Proof.
  revert pre hd. induction tl as [|y l IH]; intros pre hd Hpre [Hhd Htl]%Forall_cons.
  - simpl. apply split_no_sep. rewrite list_ascii_of_string_app.
    by intros [?|?]%elem_of_app.
  - change (join ", " (hd :: y :: l))
      with (hd +:+ String "," (" " +:+ join ", " (y :: l))).
    rewrite <- append_assoc, split_append_sep; last first.
    { rewrite list_ascii_of_string_app. by intros [?|?]%elem_of_app. }
    rewrite (IH " " y); [done| |done].
    apply (bool_decide_unpack _). by vm_compute.
Qed.

Lemma strip_leading_space (a : string) : strip (" " +:+ a) = strip a.
Proof. reflexivity. Qed.

Lemma split_strip_join (names : list string) :
  names <> [] ->
  Forall (fun a => (","%char ∉ String.list_ascii_of_string a) /\ strip a = a) names ->
  map strip (split "," (join ", " names)) = names.
Proof.
  intros Hne Hnames. destruct names as [|hd tl]; [done|].
  change (join ", " (hd :: tl)) with ("" +:+ join ", " (hd :: tl)).
  rewrite split_join; [|by intros ?%elem_of_nil|].
  - apply Forall_cons in Hnames as [[_ Hhd] Htl]. simpl. f_equal; [done|].
    rewrite map_map. clear -Htl.
    induction Htl as [|a l [_ Ha] _ IH]; [done|]. simpl.
    by rewrite strip_leading_space, Ha, IH.
  - eapply Forall_impl; [exact Hnames|]. by intros a [Ha _].
Qed.

(** X20.  The author field that the data generator writes, the sampled
    names joined by a comma and a space, is read back by the author
    resolution of [build_coauthor_matrix] as those same names, in order,
    less the ones that are not in the researcher table.  This needs at
    least one name, and names that hold no comma and no white space at
    either end. *)
Theorem resolved_authors_of_joined_names (ids : gmap string nat)
    (pub : Publication) (names : list string) :
  names <> [] ->
  Forall (fun a => (","%char ∉ String.list_ascii_of_string a) /\ strip a = a) names ->
  authors pub = join ", " names ->
  resolved_authors ids pub = filter (fun a => is_Some (ids !! a)) names.
Proof.
  intros Hne Hnames Hpub. unfold resolved_authors.
  rewrite Hpub. by rewrite split_strip_join.
Qed.

Lemma resolved_authors_of_joined_names_witness :
  resolved_authors (id_mapping (map name twin_researchers))
    (publication "P0001" (join ", " ["Carol"; "Dave"; "Alice"]) "Quantum")
  = filter (fun a => is_Some (id_mapping (map name twin_researchers) !! a))
      ["Carol"; "Dave"; "Alice"].
Proof.
  apply (resolved_authors_of_joined_names (id_mapping (map name twin_researchers))
           (publication "P0001" (join ", " ["Carol"; "Dave"; "Alice"]) "Quantum")
           ["Carol"; "Dave"; "Alice"]).
  - discriminate.
  - repeat constructor; try (apply (bool_decide_unpack _); by vm_compute);
      vm_compute; reflexivity.
  - reflexivity.
Defined.

(** * The data generator *)

Lemma fields_lookup (field : string) :
  field ∈ dict_keys fields ->
  exists subfields, dict_get fields field = Ok subfields /\
    (field, subfields) ∈ fields /\ 4 <= length subfields /\ NoDup subfields.
Proof.
  unfold dict_keys, fields. simpl.
  rewrite !elem_of_cons, elem_of_nil.
  intros [->|[->|[->|[->|[->|[]]]]]]; eexists;
    (split; [vm_compute; reflexivity|]);
    (split; [|split; [simpl; lia|apply (bool_decide_unpack _); by vm_compute]]);
    rewrite !elem_of_cons; tauto.
Qed.

Lemma fields_NoDup (dept : string) (subfields : list string) :
  (dept, subfields) ∈ fields -> NoDup subfields /\ subfields <> [].
Proof.
  unfold fields. rewrite !elem_of_cons, elem_of_nil.
  intros [H|[H|[H|[H|[H|[]]]]]]; injection H as -> ->;
    (split; [apply (bool_decide_unpack _); by vm_compute|done]).
Qed.

Lemma sampled_from_NoDup {A : Type} (k : nat) (population out : list A) :
  NoDup population -> sampled_from k population out -> NoDup out.
Proof.
  intros Hnd (_ & positions & Hpos & HF).
  induction HF as [|j x positions out Hj HF IH]; [constructor|].
  apply NoDup_cons in Hpos as [Hnj Hpos]. constructor; [|by apply IH].
  intros (i & Hi)%list_elem_of_lookup_1.
  destruct (Forall2_lookup_r _ _ _ _ _ HF Hi) as (j' & Hj' & Hx).
  apply Hnj. rewrite (NoDup_lookup _ _ _ _ Hnd Hj Hx).
  by eapply list_elem_of_lookup_2.
Qed.

Lemma sampled_from_subseteq {A : Type} (k : nat) (population out : list A) (x : A) :
  sampled_from k population out -> x ∈ out -> x ∈ population.
Proof.
  intros (_ & positions & _ & HF) (i & Hi)%list_elem_of_lookup_1.
  destruct (Forall2_lookup_r _ _ _ _ _ HF Hi) as (j & _ & Hx).
  by eapply list_elem_of_lookup_2.
Qed.

Lemma gen_bind_ok {Rand A B : Type} (m : Gen Rand A) (k : A -> Gen Rand B)
    (s s' : Rand) (a : A) :
  m s = Ok (a, s') -> (m ≫= k) s = k a s'.
Proof. intros H. unfold mbind, Gen_bind. by rewrite H. Qed.

Lemma mapM_list_get {A : Type} (population : list A) (positions : list nat) :
  Forall (fun j => j < length population) positions ->
  exists out, mapM (list_get population) positions = Ok out /\
    Forall2 (fun j x => population !! j = Some x) positions out.
Proof.
  induction 1 as [|j positions Hj _ (out & E & HF)].
  - by exists [].
  - destruct (lookup_lt_is_Some_2 population j Hj) as [x Hx].
    exists (x :: out). split; [|by constructor].
    change (mapM (list_get population) (j :: positions))
      with (y ← list_get population j; k ← mapM (list_get population) positions;
            mret (y :: k)).
    assert (list_get population j = Ok x) as -> by (unfold list_get; by rewrite Hx).
    cbn [mbind Exc_bind]. by rewrite E.
Qed.

(** Rows appended by a loop whose every iteration returns. *)
Lemma gen_for_rows {Rand A B : Type} (row : A -> Gen Rand B) (P : A -> B -> Prop)
    (l : list A) (acc : list B) (s : Rand) :
  (forall x s, exists b s', row x s = Ok (b, s') /\ P x b) ->
  exists bs s',
    gen_for l (fun x acc => b ← row x; mret (acc ++ [b])) acc s = Ok (acc ++ bs, s') /\
    Forall2 P l bs.
Proof.
  intros Hrow. revert acc s. induction l as [|x l IH]; intros acc s.
  - exists [], s. simpl. split; [by rewrite app_nil_r|constructor].
  - destruct (Hrow x s) as (b & s1 & E & Hb).
    destruct (IH (acc ++ [b]) s1) as (bs & s2 & E2 & HF).
    exists (b :: bs), s2. split; [|by constructor].
    cbn [gen_for]. erewrite gen_bind_ok; last first.
    { erewrite gen_bind_ok by exact E. reflexivity. }
    by rewrite E2, <- app_assoc.
Qed.


Lemma total_weight_pos (ids : gmap string nat) (ps : list Publication) (a b : nat) :
  (0 < total_weight ids ps a b)%Z ->
  exists pub, pub ∈ ps /\ a ∈ author_indices ids pub /\ b ∈ author_indices ids pub.
Proof.
  induction ps as [|pub ps IH]; simpl; [lia|]. intros Hpos.
  destruct (decide (0 < pair_weight (author_indices ids pub) a b)%Z) as [Hp|Hn].
  - exists pub. split; [by left|]. unfold pair_weight in Hp.
    pose proof (occurrences_nonneg a (author_indices ids pub)).
    pose proof (occurrences_nonneg b (author_indices ids pub)).
    split; apply occurrences_pos; case_decide; nia.
  - destruct IH as (pub' & Hin & Hab); [|exists pub'; split; [by right|done]].
    assert (pair_weight (author_indices ids pub) a b <= 0)%Z by lia. lia.
Qed.




Section GeneratorSpec.
Variable Rand : Type.
Variable randbelow : nat -> Rand -> nat * Rand.
Variable sample_positions : nat -> nat -> Rand -> list nat * Rand.
Variable fake_name : Rand -> string * Rand.
Variable fake_email : Rand -> string * Rand.
Variable fake_sentence : nat -> Rand -> string * Rand.
Variable fake_paragraph : nat -> Rand -> string * Rand.

(** What the [random] module promises: a draw below [n] is below [n],
    and a sample takes [k] distinct positions of the population. *)
Hypothesis randbelow_lt : forall n s, 0 < n -> (randbelow n s).1 < n.
Hypothesis sample_positions_spec : forall n k s, k <= n ->
  let positions := (sample_positions n k s).1 in
  length positions = k /\ NoDup positions /\ Forall (fun j => j < n) positions.

Lemma random_choice_spec {A : Type} (l : list A) (s : Rand) :
  l <> [] ->
  exists x s', random_choice Rand randbelow l s = Ok (x, s') /\ x ∈ l.
Proof.
  intros Hne.
  assert (0 < length l) as Hlen by (destruct l; simpl; [done|lia]).
  pose proof (randbelow_lt (length l) s Hlen) as Hlt.
  destruct (randbelow (length l) s) as [i s'] eqn:Ei. simpl in Hlt.
  destruct (lookup_lt_is_Some_2 l i Hlt) as [x Hx].
  exists x, s'. split; [|by eapply list_elem_of_lookup_2].
  unfold random_choice. destruct l as [|y l']; [done|].
  erewrite gen_bind_ok by (unfold draw; by rewrite Ei).
  unfold lift, list_get. by rewrite Hx.
Qed.

Lemma random_randint_spec (a b : Z) (s : Rand) :
  (a <= b)%Z ->
  exists x s', random_randint Rand randbelow a b s = Ok (x, s') /\ (a <= x <= b)%Z.
Proof.
  intros Hab. unfold random_randint.
  destruct (b <? a)%Z eqn:E; [apply Z.ltb_lt in E; lia|].
  pose proof (randbelow_lt (Z.to_nat (b - a + 1)) s ltac:(lia)) as Hlt.
  destruct (randbelow (Z.to_nat (b - a + 1)) s) as [i s'] eqn:Ei. simpl in Hlt.
  exists (a + Z.of_nat i)%Z, s'. split; [|lia].
  erewrite gen_bind_ok by (unfold draw; by rewrite Ei). done.
Qed.

Lemma random_sample_spec {A : Type} (population : list A) (k : nat) (s : Rand) :
  k <= length population ->
  exists out s', random_sample Rand sample_positions population k s = Ok (out, s') /\
    sampled_from k population out.
Proof.
  intros Hk. unfold random_sample. rewrite decide_True by done.
  destruct (sample_positions_spec (length population) k s Hk) as (Hlen & Hnd & Hlt).
  destruct (sample_positions (length population) k s) as [positions s'] eqn:Ep.
  simpl in Hlen, Hnd, Hlt.
  destruct (mapM_list_get population positions Hlt) as (out & E & HF).
  exists out, s'. split.
  - erewrite gen_bind_ok by (unfold draw; by rewrite Ep).
    unfold lift. by rewrite E.
  - split; [|by exists positions].
    apply Forall2_length in HF. lia.
Qed.

Lemma researcher_row_spec (i : nat) (s : Rand) :
  exists r s',
    researcher_row Rand randbelow sample_positions fake_name fake_email i s = Ok (r, s') /\
    researcher_row_ok i r.
Proof.
  unfold researcher_row.
  destruct (random_choice_spec (dict_keys fields) s) as (field & s1 & E1 & Hfield); [done|].
  destruct (fields_lookup field Hfield) as (subfields & Eget & Hin & Hlen & _).
  destruct (fake_name s1) as [nm s2] eqn:E2.
  destruct (fake_email s2) as [em s3] eqn:E3.
  destruct (random_sample_spec subfields 3 s3) as (interests & s4 & E4 & Hs); [lia|].
  eexists _, s4. split.
  - erewrite gen_bind_ok by exact E1.
    erewrite gen_bind_ok by (unfold draw; by rewrite E2).
    erewrite gen_bind_ok by (unfold draw; by rewrite E3).
    erewrite gen_bind_ok by (unfold lift; by rewrite Eget).
    erewrite gen_bind_ok by exact E4. reflexivity.
  - split; [done|]. by exists subfields, interests.
Qed.

Lemma remove_char_spec (c : ascii) (s : string) :
  c ∉ String.list_ascii_of_string (remove_char c s).
Proof.
  unfold remove_char. rewrite String.list_ascii_of_string_of_list_ascii.
  intros [Hc _]%list_elem_of_filter. by apply Hc.
Qed.

Lemma publication_row_spec (rs : list Researcher) (i : nat) (s : Rand) :
  exists pub s',
    publication_row Rand randbelow sample_positions fake_sentence fake_paragraph rs i s
      = Ok (pub, s') /\
    publication_row_ok rs i pub.
Proof.
  unfold publication_row.
  destruct (random_choice_spec (dict_keys fields) s) as (dept & s1 & E1 & Hdept); [done|].
  destruct (fields_lookup dept Hdept) as (subfields & Eget & Hin & Hlen & _).
  destruct (random_randint_spec 1 4 s1) as (k & s2 & E2 & Hk); [lia|].
  set (potential_authors := map name (filter (fun r => department r = dept) rs)).
  destruct (random_sample_spec potential_authors
              (Nat.min (Z.to_nat k) (length potential_authors)) s2)
    as (sampled & s3 & E3 & Hs); [lia|].
  destruct (fake_sentence 6 s3) as [sentence s4] eqn:E4.
  destruct (fake_paragraph 3 s4) as [paragraph s5] eqn:E5.
  destruct (random_randint_spec 2015 2023 s5) as (yr & s6 & E6 & Hyr); [lia|].
  destruct (random_sample_spec subfields 2 s6) as (kws & s7 & E7 & Hkws); [lia|].
  eexists _, s7. split.
  - erewrite gen_bind_ok by exact E1.
    erewrite gen_bind_ok by exact E2.
    erewrite gen_bind_ok by exact E3.
    erewrite gen_bind_ok by (unfold draw; by rewrite E4).
    erewrite gen_bind_ok by (unfold draw; by rewrite E5).
    erewrite gen_bind_ok by exact E6.
    erewrite gen_bind_ok by (unfold lift; by rewrite Eget).
    erewrite gen_bind_ok by exact E7. reflexivity.
  - split; [done|]. split; [done|]. split; [apply remove_char_spec|].
    exists dept, subfields, (Z.to_nat k), sampled, kws.
    split; [done|]. split; [lia|]. cbv zeta.
    split; [exact Hs|]. split; [done|]. split; [exact Hkws|done].
Qed.

(** The two loops of the script and what they leave. *)
Lemma generate_spec (s : Rand) :
  exists rs ps s',
    generate Rand randbelow sample_positions fake_name fake_email
      fake_sentence fake_paragraph s = Ok ((rs, ps), s') /\
    Forall2 researcher_row_ok (range 0 100) rs /\
    Forall2 (publication_row_ok rs) (range 0 200) ps.
Proof.
  unfold generate, generate_researchers, generate_publications.
  destruct (gen_for_rows
              (researcher_row Rand randbelow sample_positions fake_name fake_email)
              researcher_row_ok (range 0 100) [] s researcher_row_spec)
    as (rs & s1 & E1 & Hrs).
  destruct (gen_for_rows
              (publication_row Rand randbelow sample_positions fake_sentence fake_paragraph rs)
              (publication_row_ok rs) (range 0 200) [] s1 (publication_row_spec rs))
    as (ps & s2 & E2 & Hps).
  exists rs, ps, s2. split; [|done].
  erewrite gen_bind_ok by exact E1.
  erewrite gen_bind_ok by exact E2. reflexivity.
Qed.

Local Abbreviation generate_tables :=
  (generate Rand randbelow sample_positions fake_name fake_email fake_sentence fake_paragraph).

Lemma generate_rows (s s' : Rand) (rs : list Researcher) (ps : list Publication) :
  generate_tables s = Ok ((rs, ps), s') ->
  Forall2 researcher_row_ok (range 0 100) rs /\
  Forall2 (publication_row_ok rs) (range 0 200) ps.
Proof.
  intros E. destruct (generate_spec s) as (rs' & ps' & s'' & E' & Hrs & Hps).
  rewrite E in E'. by injection E' as <- <- <-.
Qed.

(** X21.  The generator never raises, whatever is drawn: each
    [random.sample] asks for no more than its population holds and
    [random.choice] is given a non-empty list.  It leaves 100 researchers
    and 200 publications, numbered R000 to R099 and P0000 to P0199, the
    ids pairwise distinct. *)
Theorem generate_returns (s : Rand) :
  exists rs ps s',
    generate_tables s = Ok ((rs, ps), s') /\
    length rs = 100 /\ length ps = 200 /\
    map researcher_id rs = map (fun i => "R" +:+ format_d 3 i) (seq 0 100) /\
    map publication_id ps = map (fun i => "P" +:+ format_d 4 i) (seq 0 200) /\
    NoDup (map researcher_id rs) /\ NoDup (map publication_id ps).
Proof.
  destruct (generate_spec s) as (rs & ps & s' & E & Hrs & Hps).
  exists rs, ps, s'. split; [exact E|].
  assert (map researcher_id rs = map (fun i => "R" +:+ format_d 3 i) (seq 0 100)) as Hr.
  { clear -Hrs. unfold range in Hrs. simpl Nat.sub in Hrs.
    induction Hrs as [|i r l rs [Hi _] _ IH]; [done|]. simpl. by rewrite Hi, IH. }
  assert (map publication_id ps = map (fun i => "P" +:+ format_d 4 i) (seq 0 200)) as Hp.
  { clear -Hps. unfold range in Hps. simpl Nat.sub in Hps.
    induction Hps as [|i p l ps [Hi _] _ IH]; [done|]. simpl. by rewrite Hi, IH. }
  split; [by apply Forall2_length in Hrs|].
  split; [by apply Forall2_length in Hps|].
  split; [exact Hr|]. split; [exact Hp|]. rewrite Hr, Hp.
  split; apply (bool_decide_unpack _); by vm_compute.
Qed.

(** X22.  Every generated researcher belongs to one of the five
    departments of [fields], and the research interests are three
    different subfields of that department, joined by a comma and a
    space. *)
Theorem generated_researchers (s s' : Rand)
    (rs : list Researcher) (ps : list Publication) :
  generate_tables s = Ok ((rs, ps), s') ->
  Forall (fun r => exists subfields interests,
    (department r, subfields) ∈ fields /\
    research_interests r = join ", " interests /\
    length interests = 3 /\ NoDup interests /\ interests ⊆ subfields) rs.
Proof.
  intros E. destruct (generate_rows s s' rs ps E) as [Hrs _].
  eapply Forall2_Forall_r; [exact Hrs|].
  apply Forall_forall. intros i _ r (_ & subfields & interests & Hin & Hs & Hint).
  exists subfields, interests. split; [done|]. split; [done|].
  split; [apply Hs|]. split.
  - eapply sampled_from_NoDup; [|exact Hs]. by eapply fields_NoDup.
  - intros x Hx. by eapply sampled_from_subseteq.
Qed.

(** X23.  Every generated publication has a year from 2015 to 2023, a
    title without a dot, two different subfields of one department as
    keywords, and as authors at most four researchers of that same
    department, taken from different rows of the researcher table.  The
    author field is empty exactly when the department has no
    researcher. *)
Theorem generated_publications (s s' : Rand)
    (rs : list Researcher) (ps : list Publication) :
  generate_tables s = Ok ((rs, ps), s') ->
  Forall (fun pub =>
    (2015 <= year pub <= 2023)%Z /\
    ("."%char ∉ String.list_ascii_of_string (title pub)) /\
    exists dept subfields sampled kws,
      (dept, subfields) ∈ fields /\
      keywords pub = join ", " kws /\
      length kws = 2 /\ NoDup kws /\ kws ⊆ subfields /\
      authors pub = join ", " sampled /\
      length sampled <= 4 /\
      sampled_from (length sampled)
        (map name (filter (fun r => department r = dept) rs)) sampled /\
      (sampled = [] <-> Forall (fun r => department r <> dept) rs)) ps.
Proof.
  intros E. destruct (generate_rows s s' rs ps E) as [_ Hps].
  eapply Forall2_Forall_r; [exact Hps|].
  apply Forall_forall.
  intros i _ pub (_ & Hyear & Htitle & dept & subfields & k & sampled & kws &
                  Hin & Hk & Hs & Hauthors & Hkws & Hkeywords).
  cbv zeta in Hs. split; [done|]. split; [done|].
  exists dept, subfields, sampled, kws.
  split; [done|]. split; [done|]. split; [apply Hkws|]. split.
  { eapply sampled_from_NoDup; [|exact Hkws]. by eapply fields_NoDup. }
  split. { intros x Hx. by eapply sampled_from_subseteq. }
  split; [done|].
  pose proof (proj1 Hs) as Hlen. split; [lia|]. split.
  { by rewrite Hlen. }
  split.
  - intros ->. simpl in Hlen.
    assert (length (map name (filter (fun r => department r = dept) rs)) = 0) as H0 by lia.
    rewrite length_map in H0. apply nil_length_inv in H0.
    apply Forall_forall. intros r Hr Hd.
    assert (r ∈ filter (fun r => department r = dept) rs) as Hf
      by (by apply list_elem_of_filter).
    rewrite H0 in Hf. by apply elem_of_nil in Hf.
  - intros Hall. apply nil_length_inv. rewrite Hlen.
    assert (filter (fun r => department r = dept) rs = []) as ->; [|simpl; lia].
    clear -Hall. induction Hall as [|r rs Hr _ IH]; [done|].
    by rewrite filter_cons_False.
Qed.

(** X24.  On generated tables whose researcher names are pairwise
    distinct, hold no comma and no white space at either end, and where
    no author field came out empty, co-authorship stays inside a
    department: two researchers with a positive co-authorship weight
    have the same department. *)
Theorem generated_coauthors_share_department (s s' : Rand)
    (rs : list Researcher) (ps : list Publication) :
  generate_tables s = Ok ((rs, ps), s') ->
  NoDup (map name rs) ->
  Forall (fun r => (","%char ∉ String.list_ascii_of_string (name r)) /\
                   strip (name r) = name r) rs ->
  Forall (fun pub => authors pub <> "") ps ->
  exists self,
    build_coauthor_matrix (load_data init rs ps) = Ok self /\
    forall a b ra rb, rs !! a = Some ra -> rs !! b = Some rb ->
      (0 < weight self a b)%Z -> department ra = department rb.
Proof.
  intros E Hnd Hnames Hauthors.
  destruct (generate_rows s s' rs ps E) as [_ Hps].
  destruct (build_coauthor_matrix_stored init rs ps) as (M & self & Eb & C & _ & W).
  exists self. split; [exact Eb|].
  intros a b ra rb Ha Hb Hpos. unfold weight in Hpos. rewrite C in Hpos.
  simpl in Hpos. rewrite W in Hpos.
  apply total_weight_pos in Hpos as (pub & Hpub & Hia & Hib).
  apply list_elem_of_lookup_1 in Hpub as [i Hi].
  destruct (Forall2_lookup_r _ _ _ _ _ Hps Hi)
    as (n & _ & _ & _ & _ & dept & subfields & k & sampled & kws &
        _ & _ & Hs & Hjoin & _).
  cbv zeta in Hs.
  assert (sampled <> []) as Hne.
  { intros ->. eapply Forall_lookup_1 in Hauthors; [|exact Hi]. by apply Hauthors. }
  assert (forall x, x ∈ sampled ->
            exists r, r ∈ rs /\ department r = dept /\ name r = x) as Hsampled.
  { intros x Hx. eapply sampled_from_subseteq in Hx; [|exact Hs].
    apply list_elem_of_fmap in Hx as (r & -> & [Hd Hr]%list_elem_of_filter).
    by exists r. }
  assert (forall c rc, rs !! c = Some rc ->
            c ∈ author_indices (id_mapping (map name rs)) pub ->
            department rc = dept) as Hdept.
  { intros c rc Hc (j & Hj)%list_elem_of_lookup_1.
    destruct (Forall2_lookup_r _ _ _ _ _
                (author_indices_resolved (id_mapping (map name rs)) pub) Hj)
      as (nm & Hnm & Hid).
    apply list_elem_of_lookup_2 in Hnm. unfold resolved_authors in Hnm.
    rewrite Hjoin, split_strip_join in Hnm; [|done|].
    - apply list_elem_of_filter in Hnm as [_ Hnm].
      destruct (Hsampled nm Hnm) as (r & Hr & Hd & Hname).
      apply list_elem_of_lookup_1 in Hr as [c' Hc'].
      apply id_mapping_lookup in Hid.
      assert (c' = c) as ->.
      { eapply NoDup_lookup; [exact Hnd| |exact Hid].
        by rewrite list_lookup_fmap, Hc', <- Hname. }
      rewrite Hc in Hc'. by injection Hc' as ->.
    - apply Forall_forall. intros x Hx.
      destruct (Hsampled x Hx) as (r & Hr & _ & <-).
      by eapply Forall_forall in Hnames. }
  by rewrite (Hdept a ra Ha Hia), (Hdept b rb Hb Hib).
Qed.


(** X27.  On generated tables with pairwise distinct researcher names
    (no comma, no white space at either end, no empty author field) no
    publication lists a researcher twice, so the matrix is as the
    co-authorship graph is described: the diagonal is zero and the weight
    of two different researchers is the number of publications that list
    both. *)
Theorem generated_weights_count_publications (s s' : Rand)
    (rs : list Researcher) (ps : list Publication) :
  generate_tables s = Ok ((rs, ps), s') ->
  NoDup (map name rs) ->
  Forall (fun r => (","%char ∉ String.list_ascii_of_string (name r)) /\
                   strip (name r) = name r) rs ->
  Forall (fun pub => authors pub <> "") ps ->
  exists self,
    build_coauthor_matrix (load_data init rs ps) = Ok self /\
    forall a b,
      weight self a a = 0%Z /\
      (a <> b -> weight self a b = shared_publications (id_mapping (map name rs)) ps a b).
Proof.
  intros E Hnd Hnames Hauthors.
  destruct (generate_rows s s' rs ps E) as [_ Hps].
  destruct (build_coauthor_matrix_stored init rs ps) as (M & self & Eb & C & _ & W).
  exists self. split; [exact Eb|].
  assert (Forall (fun pub => NoDup (author_indices (id_mapping (map name rs)) pub)) ps)
    as Hnorep.
  { apply Forall_forall. intros pub (i & Hi)%list_elem_of_lookup_1.
    destruct (Forall2_lookup_r _ _ _ _ _ Hps Hi)
      as (n & _ & _ & _ & _ & dept & subfields & k & sampled & kws &
          _ & _ & Hs & Hjoin & _).
    cbv zeta in Hs.
    assert (sampled <> []) as Hne.
    { intros ->. eapply Forall_lookup_1 in Hauthors; [|exact Hi]. by apply Hauthors. }
    assert (NoDup sampled) as Hsnd.
    { eapply sampled_from_NoDup; [|exact Hs].
      eapply sublist_NoDup; [exact Hnd|].
      apply (fmap_sublist name), sublist_filter. }
    assert (NoDup (resolved_authors (id_mapping (map name rs)) pub)) as Hres.
    { unfold resolved_authors. rewrite Hjoin, split_strip_join; [by apply NoDup_filter|done|].
      apply Forall_forall. intros x Hx.
      eapply sampled_from_subseteq in Hx; [|exact Hs].
      apply list_elem_of_fmap in Hx as (r & -> & [_ Hr]%list_elem_of_filter).
      by eapply Forall_forall in Hnames. }
    pose proof (author_indices_resolved (id_mapping (map name rs)) pub) as HF.
    revert Hres. induction HF as [|nm c names idxs Hc HF IH]; [constructor|].
    intros [Hnm Hres]%NoDup_cons. constructor; [|by apply IH].
    intros (j & Hj)%list_elem_of_lookup_1.
    destruct (Forall2_lookup_r _ _ _ _ _ HF Hj) as (nm' & Hnm' & Hc').
    apply id_mapping_lookup in Hc, Hc'. rewrite Hc in Hc'. injection Hc' as <-.
    apply Hnm. by eapply list_elem_of_lookup_2. }
  assert (forall a, Forall (fun pub =>
            (occurrences a (author_indices (id_mapping (map name rs)) pub) <= 1)%Z) ps)
    as Hocc.
  { intros a. eapply Forall_impl; [exact Hnorep|]. intros pub Hpub. simpl.
    unfold occurrences. clear -Hpub.
    induction Hpub as [|x l Hx _ IH]; [done|].
    rewrite filter_cons. destruct (decide (x = a)) as [->|]; [|done].
    assert (filter (fun y => y = a) l = []) as ->; [|simpl; lia].
    clear IH. induction l as [|y l IH]; [done|].
    apply not_elem_of_cons in Hx as [Hy Hx].
    rewrite filter_cons_False by (by intros ->). by apply IH. }
  intros a b. unfold weight. rewrite C. simpl. rewrite !W. split.
  - by apply total_weight_diagonal.
  - intros Hab. rewrite total_weight_distinct by done.
    apply shared_weight_without_repeats.
    apply Forall_forall. intros pub Hpub. split.
    + by eapply Forall_forall in Hpub; [|apply (Hocc a)].
    + by eapply Forall_forall in Hpub; [|apply (Hocc b)].
Qed.

End GeneratorSpec.

Lemma counter_randbelow_lt (n s : nat) : 0 < n -> (counter_randbelow n s).1 < n.
Proof. intros Hn. simpl. apply Nat.mod_upper_bound. lia. Qed.

Lemma counter_positions_spec (n k s : nat) :
  k <= n ->
  let positions := (counter_positions n k s).1 in
  length positions = k /\ NoDup positions /\ Forall (fun j => j < n) positions.
Proof.
  intros Hk. simpl. split; [apply length_seq|]. split; [apply NoDup_seq|].
  apply Forall_seq. intros; lia.
Qed.

Lemma counter_tables_generated :
  counter_generate 0 = Ok ((counter_tables.1, counter_tables.2), 1800).
Proof. vm_compute. reflexivity. Qed.

Lemma generate_returns_witness :
  exists rs ps s',
    counter_generate 0 = Ok ((rs, ps), s') /\
    length rs = 100 /\ length ps = 200 /\
    map researcher_id rs = map (fun i => "R" +:+ format_d 3 i) (seq 0 100) /\
    map publication_id ps = map (fun i => "P" +:+ format_d 4 i) (seq 0 200) /\
    NoDup (map researcher_id rs) /\ NoDup (map publication_id ps).
Proof.
  exact (generate_returns nat counter_randbelow counter_positions
           counter_name counter_email counter_text counter_text
           counter_randbelow_lt counter_positions_spec 0).
Defined.

Lemma generated_researchers_witness :
  Forall (fun r => exists subfields interests,
    (department r, subfields) ∈ fields /\
    research_interests r = join ", " interests /\
    length interests = 3 /\ NoDup interests /\ interests ⊆ subfields) counter_tables.1.
Proof.
  exact (generated_researchers nat counter_randbelow counter_positions
           counter_name counter_email counter_text counter_text
           counter_randbelow_lt counter_positions_spec
           0 1800 counter_tables.1 counter_tables.2 counter_tables_generated).
Defined.

Lemma generated_publications_witness :
  Forall (fun pub =>
    (2015 <= year pub <= 2023)%Z /\
    ("."%char ∉ String.list_ascii_of_string (title pub)) /\
    exists dept subfields sampled kws,
      (dept, subfields) ∈ fields /\
      keywords pub = join ", " kws /\
      length kws = 2 /\ NoDup kws /\ kws ⊆ subfields /\
      authors pub = join ", " sampled /\
      length sampled <= 4 /\
      sampled_from (length sampled)
        (map name (filter (fun r => department r = dept) counter_tables.1)) sampled /\
      (sampled = [] <-> Forall (fun r => department r <> dept) counter_tables.1))
    counter_tables.2.
Proof.
  exact (generated_publications nat counter_randbelow counter_positions
           counter_name counter_email counter_text counter_text
           counter_randbelow_lt counter_positions_spec
           0 1800 counter_tables.1 counter_tables.2 counter_tables_generated).
Defined.

Lemma generated_coauthors_share_department_witness :
  exists self,
    build_coauthor_matrix (load_data init counter_tables.1 counter_tables.2) = Ok self /\
    forall a b ra rb, counter_tables.1 !! a = Some ra -> counter_tables.1 !! b = Some rb ->
      (0 < weight self a b)%Z -> department ra = department rb.
Proof.
  apply (generated_coauthors_share_department nat counter_randbelow counter_positions
           counter_name counter_email counter_text counter_text
           counter_randbelow_lt counter_positions_spec
           0 1800 counter_tables.1 counter_tables.2 counter_tables_generated).
  - apply (bool_decide_unpack _). by vm_compute.
  - apply (bool_decide_unpack _). by vm_compute.
  - apply (bool_decide_unpack _). by vm_compute.
Defined.


Lemma generated_weights_count_publications_witness :
  exists self,
    build_coauthor_matrix (load_data init counter_tables.1 counter_tables.2) = Ok self /\
    forall a b,
      weight self a a = 0%Z /\
      (a <> b ->
       weight self a b
       = shared_publications (id_mapping (map name counter_tables.1)) counter_tables.2 a b).
Proof.
  apply (generated_weights_count_publications nat counter_randbelow counter_positions
           counter_name counter_email counter_text counter_text
           counter_randbelow_lt counter_positions_spec
           0 1800 counter_tables.1 counter_tables.2 counter_tables_generated).
  - apply (bool_decide_unpack _). by vm_compute.
  - apply (bool_decide_unpack _). by vm_compute.
  - apply (bool_decide_unpack _). by vm_compute.
Defined.

(** * The script of [recommender.py] *)


